(** * EventHandler: the module link of DIY-Smarthome

    A shallow embedding of the [EventHandler] class (the persistent-stream
    version with the [pendingMessages] registry consulted by the data
    listener) and the properties of its connection multiplexer: request
    correlation, event dispatch, subscribe/unsubscribe and dispose.

    The class is single threaded.  Every method is a state transformer on
    the fields of the instance; the two [await] points ([invokeAsync] in
    the data listener, the "kernel/dispose" request in [dispose]) are
    modelled as suspended continuations that a later step resumes.  The
    calls made on the outside world (process hooks, the stream, the
    console) and the writes to the registry are appended to a history
    ([trace]) so that orderings can be stated. *)

From stdpp Require Import base option list gmap strings.
From Stdlib Require Import ZArith DecimalString.

Local Open Scope string_scope.
Local Open Scope Z_scope.
Local Open Scope list_scope.

(** ** JSON values

    [JSON.parse] yields these values; [JUndefined] is what reading an
    absent property gives.  An object lists its own properties, each name
    once. *)

#[local] Unset Elimination Schemes.
Inductive Json : Type :=
  | JUndefined
  | JNull
  | JBool (b : bool)
  | JNum (n : Z)
  | JStr (s : string)
  | JArr (items : list Json)
  | JObj (fields : list (string * Json)).
#[local] Set Elimination Schemes.

(** Outcome of [JSON.parse(body)]: the built-in either throws a
    [SyntaxError] or returns a value. *)
Inductive ParseResult : Type :=
  | ParseError
  | Parsed (data : Json).

Inductive Error : Type :=
  | SyntaxError   (* JSON.parse on a malformed body *)
  | TypeError.    (* spreading a non-iterable, a method of undefined *)

Module JS.

Fixpoint assoc (name : string) (fields : list (string * Json)) : Json :=
  match fields with
  | [] => JUndefined
  | (k, v) :: rest => if decide (k = name) then v else assoc name rest
  end.

(** [data.name]: only objects carry the properties read by the class
    ([id], [eventname], [timeout], [payload]); on any other truthy
    value the read gives [undefined]. *)
Definition get (name : string) (data : Json) : Json :=
  match data with
  | JObj fields => assoc name fields
  | _ => JUndefined
  end.

(** Truthiness, as tested by [!data]. *)
Definition truthy (v : Json) : bool :=
  match v with
  | JUndefined | JNull => false
  | JBool b => b
  | JNum n => negb (Z.eqb n 0)
  | JStr s => negb (String.eqb s "")
  | JArr _ | JObj _ => true
  end.

(** [v ?? d] *)
Definition nullish (v d : Json) : Json :=
  match v with
  | JUndefined | JNull => d
  | _ => v
  end.

Fixpoint chars (s : string) : list Json :=
  match s with
  | EmptyString => []
  | String c rest => JStr (String c EmptyString) :: chars rest
  end.

(** [...v] in an argument list: arrays and strings are iterable, every
    other value raises a [TypeError]. *)
Definition spread (v : Json) : option (list Json) :=
  match v with
  | JArr items => Some items
  | JStr s => Some (chars s)
  | _ => None
  end.

Fixpoint spaces (n : nat) : string :=
  match n with
  | O => EmptyString
  | S k => " " +:+ spaces k
  end.

(** [s.padEnd(n, " ")] *)
Definition padEnd (s : string) (n : nat) : string :=
  s +:+ spaces (n - String.length s).

(** Decimal rendering of a count, as in ["|" + unfinished]. *)
Definition show_nat (n : nat) : string :=
  NilZero.string_of_uint (Nat.to_uint n).

(** A possibly undefined string inside a template literal. *)
Definition show_opt (s : option string) : string :=
  match s with
  | Some s => s
  | None => "undefined"
  end.

End JS.

(** ** Wire records *)

Module Configdata.
Record t : Type := mk { pass : string; timeout : Z; loglevel : Z }.
End Configdata.

(** The request envelope built by [doRequest]. *)
Module Eventdata.
Record t : Type := mk
  { id : string;
    pass : string;
    modulename : option string;
    eventname : string;
    timeout : Z;
    payload : Json }.
End Eventdata.

(** The response envelope built by the data listener. *)
Module Response.
Record t : Type := mk
  { id : Json;
    modulename : option string;
    statuscode : Z;
    detailedstatus : string;
    content : list Json }.
End Response.

(** The argument of [JSON.stringify] in a [secStream.write] call. *)
Inductive Message : Type :=
  | MRequest (data : Eventdata.t)
  | MResponse (r : Response.t).

(** Modelled from the spec: the class [ResponseArray]
    (Utils/interfaces/ResponseArray) is not part of the sources; a pending
    request is resolved with the list of responses it is constructed from. *)
Definition ResponseArray : Type := list Json.

(** Modelled from the spec: [new ResponseArray(...items)] holds [items]. *)
Definition new_ResponseArray (items : list Json) : ResponseArray := items.

(** Modelled from the spec: the enum member [DetailedStatus.PARTIAL_TIMEOUT]
    (Utils/enums/DetailedStatus) renders as the detail prefix of the wire
    schema. *)
Definition PARTIAL_TIMEOUT : string := "PARTIAL_TIMEOUT".

(** ** Delegate *)

Module Delegate.

(** A binding is a handler and an optional class context, both compared
    by identity: they are represented by their identity tokens. *)
Definition Binding : Type := nat * option nat.

(** Modelled from the spec: the class [Delegate]
    (Utils/Delegate/Delegate) is not part of the sources.  It is the
    ordered collection of bindings of one event name ([funcs]). *)
Definition t : Type := list Binding.

Definition new : t := [].

(** Modelled from the spec: [bind] appends, duplicates allowed. *)
Definition bind (func : nat) (classcontext : option nat) (d : t) : t :=
  d ++ [(func, classcontext)].

(** Modelled from the spec: [unbind] removes the first matching
    binding, and nothing when there is none. *)
Fixpoint unbind (func : nat) (classcontext : option nat) (d : t) : t :=
  match d with
  | [] => []
  | b :: rest =>
      if decide (b = (func, classcontext)) then rest
      else b :: unbind func classcontext rest
  end.

(** Modelled from the spec: [invokeAsync(timeout, payload)] (section
    4.2).  [run b timeout payload] is [Some r] when the handler of [b]
    completes successfully with [r] before the deadline and [None] when
    it is still running then or has raised.  The results are in binding
    order and everything else is counted as unfinished. *)
Definition invokeAsync (run : Binding -> Json -> Json -> option Json)
    (timeout payload : Json) (d : t) : list Json * nat :=
  let results := omap (fun b => run b timeout payload) d in
  (results, (length d - length results)%nat).

End Delegate.

(** ** The outside world *)

(** What the class obtains from its imports and from the platform. *)
Record Env : Type := mkEnv
  { getUUID : nat -> string;          (* the n-th call of uuid's v4() *)
    toISOString : nat -> string;      (* new Date().toISOString(), by history length *)
    LogLevel_Debug : Z;               (* LogLevel.Debug *)
    LogLevel_name : Z -> string;      (* LogLevel[level] *)
    JSON_stringify : Eventdata.t -> string;
    handler_run : Delegate.Binding -> Json -> Json -> option Json }.

Record Stream : Type := mkStream
  { dataListener : bool;   (* on('data', ...) installed *)
    destroyed : bool }.

Inductive PromiseState : Type :=
  | Pending
  | Fulfilled (value : ResponseArray)
  | Rejected (e : Error).

(** Calls on the outside world and registry writes, in program order. *)
Inductive Action : Type :=
  | AProcessOn (eventType : string)
  | AProcessOff (eventType : string)
  | AConnect (port : Z)
  | AOnData
  | ARegister (id : string)            (* pendingMessages.set(id, resolve) *)
  | AWrite (m : Message)               (* secStream.write(JSON.stringify(m)) *)
  | ADestroy                           (* secStream.destroy() *)
  | AConsoleError (e : Error).

(** ** The instance *)

Record State : Type := mkState
  { modulename : option string;
    config : Configdata.t;
    bindings : gmap string Delegate.t;
    kernelPort : Z;
    secStream : option Stream;
    (* id -> the promise whose [resolve] is stored *)
    pendingMessages : gmap string nat;
    disposed : bool;
    (* the promises created by [doRequest], by creation index *)
    promises : list PromiseState;
    (* number of identifiers drawn so far *)
    uuidCalls : nat;
    (* promises a suspended [dispose] is awaiting *)
    awaitingDispose : list nat;
    trace : list Action }.

Definition upd_bindings (f : gmap string Delegate.t -> gmap string Delegate.t)
    (st : State) : State :=
  mkState (modulename st) (config st) (f (bindings st)) (kernelPort st)
    (secStream st) (pendingMessages st) (disposed st) (promises st)
    (uuidCalls st) (awaitingDispose st) (trace st).

Definition upd_secStream (f : option Stream -> option Stream) (st : State) : State :=
  mkState (modulename st) (config st) (bindings st) (kernelPort st)
    (f (secStream st)) (pendingMessages st) (disposed st) (promises st)
    (uuidCalls st) (awaitingDispose st) (trace st).

Definition upd_pendingMessages (f : gmap string nat -> gmap string nat)
    (st : State) : State :=
  mkState (modulename st) (config st) (bindings st) (kernelPort st)
    (secStream st) (f (pendingMessages st)) (disposed st) (promises st)
    (uuidCalls st) (awaitingDispose st) (trace st).

Definition set_disposed (b : bool) (st : State) : State :=
  mkState (modulename st) (config st) (bindings st) (kernelPort st)
    (secStream st) (pendingMessages st) b (promises st)
    (uuidCalls st) (awaitingDispose st) (trace st).

Definition upd_promises (f : list PromiseState -> list PromiseState)
    (st : State) : State :=
  mkState (modulename st) (config st) (bindings st) (kernelPort st)
    (secStream st) (pendingMessages st) (disposed st) (f (promises st))
    (uuidCalls st) (awaitingDispose st) (trace st).

Definition upd_uuidCalls (f : nat -> nat) (st : State) : State :=
  mkState (modulename st) (config st) (bindings st) (kernelPort st)
    (secStream st) (pendingMessages st) (disposed st) (promises st)
    (f (uuidCalls st)) (awaitingDispose st) (trace st).

Definition upd_awaitingDispose (f : list nat -> list nat) (st : State) : State :=
  mkState (modulename st) (config st) (bindings st) (kernelPort st)
    (secStream st) (pendingMessages st) (disposed st) (promises st)
    (uuidCalls st) (f (awaitingDispose st)) (trace st).

Definition emit (a : Action) (st : State) : State :=
  mkState (modulename st) (config st) (bindings st) (kernelPort st)
    (secStream st) (pendingMessages st) (disposed st) (promises st)
    (uuidCalls st) (awaitingDispose st) (trace st ++ [a]).

(** [constructor(kernelport, config, modulename?)] *)
Definition constructor (kernelport : Z) (cfg : Configdata.t)
    (name : option string) : State :=
  mkState name cfg ∅ kernelport None ∅ false [] 0 [] [].

(** The six process events hooked by [init] and unhooked by [dispose]. *)
Definition exitEvents : list string :=
  ["beforeExit"; "SIGINT"; "SIGUSR1"; "SIGUSR2"; "uncaughtException"; "SIGTERM"].

(** ** Promises *)

Definition promiseState (p : nat) (st : State) : PromiseState :=
  default Pending (promises st !! p).

(** [new Promise(...)]: a fresh pending promise. *)
Definition new_Promise (st : State) : nat * State :=
  (length (promises st), upd_promises (fun ps => ps ++ [Pending]) st).

(** [resolve(v)] and [reject(e)] settle a pending promise and do nothing
    on a settled one. *)
Definition settle (p : nat) (s : PromiseState) (st : State) : State :=
  match promiseState p st with
  | Pending => upd_promises (fun ps => <[p := s]> ps) st
  | _ => st
  end.

(** [secStream.write(JSON.stringify(m))]; the call on an undefined stream
    raises a [TypeError]. *)
Definition stream_write (m : Message) (st : State) : Error + State :=
  match secStream st with
  | None => inl TypeError
  | Some _ => inr (emit (AWrite m) st)
  end.

(** [secStream.destroy()] *)
Definition stream_destroy (st : State) : Error + State :=
  match secStream st with
  | None => inl TypeError
  | Some s =>
      inr (emit ADestroy
             (upd_secStream (fun _ => Some (mkStream (dataListener s) true)) st))
  end.

(** ** Methods *)

Section Methods.

Variable E : Env.

(** The line sent by [Log]:
    [[<iso time>] <[level] padded to 9> [<modulename>] <content>] *)
Definition log_line (logLevel : Z) (content : string) (st : State) : string :=
  "[" +:+ toISOString E (length (trace st)) +:+ "] "
    +:+ JS.padEnd ("[" +:+ LogLevel_name E logLevel +:+ "]") 9
    +:+ " [" +:+ JS.show_opt (modulename st) +:+ "] " +:+ content.

(** [Log(logLevel, content)], over the request function it sends with.
    The method is [async] and has no [await]: it runs to its end inside
    the call and nothing it raises reaches the caller. *)
Definition Log_with
    (requestInternal : string -> Z -> Json -> State -> option (nat * State))
    (logLevel : Z) (content : string) (st : State) : option State :=
  if Z.ltb logLevel (Configdata.loglevel (config st)) then Some st
  else
    snd <$> requestInternal "kernel/log" (Configdata.timeout (config st))
              (JObj [("message", JStr (log_line logLevel content st))]) st.

(** [pendingMessages.set(uuid, resolve)] *)
Definition pendingMessages_set (uuid : string) (prm : nat) (st : State) : State :=
  emit (ARegister uuid) (upd_pendingMessages (fun m => <[uuid := prm]> m) st).

(** The envelope [data] of [doRequest]. *)
Definition request_data (uuid path : string) (timeout : Z) (payload : Json)
    (st : State) : Eventdata.t :=
  Eventdata.mk uuid (Configdata.pass (config st)) (modulename st)
    path timeout payload.

(** The last statement of the executor: [SecStream.write(...)]; what it
    raises rejects the promise. *)
Definition send (prm : nat) (data : Eventdata.t) (st : State) : State :=
  match stream_write (MRequest data) st with
  | inl e => settle prm (Rejected e) st
  | inr st' => st'
  end.

(** [doRequest(SecStream, path, timeout, payload, logger = this)].
    [SecStream] is [this.secStream] at every call site.  The default
    [logger] is the instance itself, so the debug line is sent through
    [Log], which calls [doRequest] again when the configured level
    admits debug lines: [fuel] bounds the depth of that recursion and
    [None] is the exhausted call stack.  The result is the promise
    returned to the caller. *)
Fixpoint doRequest (fuel : nat) (path : string) (timeout : Z) (payload : Json)
    (st : State) : option (nat * State) :=
  let uuid := getUUID E (uuidCalls st) in
  let st := upd_uuidCalls S st in
  let '(prm, st) := new_Promise st in
  let st := pendingMessages_set uuid prm st in
  let data := request_data uuid path timeout payload st in
  st ← Log_with
         (match fuel with
          | O => fun _ _ _ _ => None
          | S fuel' => doRequest fuel'
          end)
         (LogLevel_Debug E)
         ("Eventhandler wrote: " +:+ JSON_stringify E data) st;
  Some (prm, send prm data st).

(** [requestInternal(eventname, timeout, payload)] *)
Definition requestInternal (fuel : nat) (eventname : string) (timeout : Z)
    (payload : Json) (st : State) : option (nat * State) :=
  doRequest fuel eventname timeout payload st.

(** [requestCustomTimeout(eventname, timeout, payload)] *)
Definition requestCustomTimeout (fuel : nat) (eventname : string) (timeout : Z)
    (payload : Json) (st : State) : option (nat * State) :=
  doRequest fuel eventname timeout payload st.

(** [request(eventname, payload)] *)
Definition request (fuel : nat) (eventname : string) (payload : Json)
    (st : State) : option (nat * State) :=
  requestCustomTimeout fuel eventname (Configdata.timeout (config st)) payload st.

(** [Log(logLevel, content)] *)
Definition Log (fuel : nat) (logLevel : Z) (content : string) (st : State)
    : option State :=
  Log_with (requestInternal fuel) logLevel content st.

(** [subscribe(eventname, func, classcontext)] *)
Definition subscribe (fuel : nat) (eventname : string) (func : nat)
    (classcontext : option nat) (st : State) : option State :=
  st ← match bindings st !! eventname with
       | Some _ => Some st
       | None =>
           snd <$> request fuel "kernel/subscribe"
                     (JObj [("eventname", JStr eventname)])
                     (upd_bindings (fun m => <[eventname := Delegate.new]> m) st)
       end;
  Some (upd_bindings (alter (Delegate.bind func classcontext) eventname) st).

(** [unsubscribe(eventname, func, classcontext)] *)
Definition unsubscribe (fuel : nat) (eventname : string) (func : nat)
    (classcontext : option nat) (st : State) : option State :=
  match bindings st !! eventname with
  | None => Some st
  | Some d =>
      let funcs := Delegate.unbind func classcontext d in
      let st := upd_bindings (fun m => <[eventname := funcs]> m) st in
      if Nat.eqb (length funcs) 0 then
        Some (upd_bindings (fun m => delete eventname m) st)
      else
        snd <$> request fuel "kernel/unsubscribe"
                  (JObj [("eventname", JStr eventname)]) st
  end.

(** The rest of [dispose] after [await this.request("kernel/dispose")]
    has been fulfilled: [this.secStream.destroy()], inside the [try]. *)
Definition dispose_resume (st : State) : State :=
  match stream_destroy st with
  | inl e => emit (AConsoleError e) st
  | inr st' => st'
  end.

(** [await prm] in [dispose]: a rejected promise goes to the [catch],
    a pending one suspends the method. *)
Definition dispose_await (prm : nat) (st : State) : State :=
  match promiseState prm st with
  | Pending => upd_awaitingDispose (fun w => w ++ [prm]) st
  | Fulfilled _ => dispose_resume st
  | Rejected e => emit (AConsoleError e) st
  end.

(** [dispose()].  [process.off] is given a fresh arrow function each
    time, which is no listener [init] has installed. *)
Definition dispose (fuel : nat) (st : State) : option State :=
  if disposed st then Some st
  else
    let st := set_disposed true st in
    let st := foldl (fun s ev => emit (AProcessOff ev) s) st exitEvents in
    let st := upd_bindings (fun _ => ∅) st in
    '(prm, st) ← request fuel "kernel/dispose" (JObj []) st;
    Some (dispose_await prm st).

(** [getModuleName()] *)
Definition getModuleName (st : State) : option string := modulename st.

End Methods.

(** ** The inbound-message loop *)

(** How one run of an [async] function leaves the caller: it has returned,
    it has raised (the promise of the run is rejected), or it is
    suspended at [await invokeAsync(...)] on the delegate [d]. *)
Inductive Completion : Type :=
  | Returned
  | Threw (e : Error)
  | Awaiting (d : Delegate.t) (data : Json).

Definition isPending (s : PromiseState) : bool :=
  match s with
  | Pending => true
  | _ => false
  end.

Section Inbound.

Variable E : Env.

(** [pendingMessages.has(id)] and [pendingMessages.get(id)]: the keys of
    the map are strings, any other value is no key. *)
Definition pending_resolver (id : Json) (st : State) : option (string * nat) :=
  match id with
  | JStr s => (fun prm => (s, prm)) <$> pendingMessages st !! s
  | _ => None
  end.

(** [bindings.has(eventname)] and [bindings.get(eventname)] *)
Definition bound_delegate (eventname : Json) (st : State) : option Delegate.t :=
  match eventname with
  | JStr s => bindings st !! s
  | _ => None
  end.

(** The continuation of one awaited promise, run once it has settled. *)
Definition react (st : State) (prm : nat) : State :=
  match promiseState prm st with
  | Pending => st
  | Fulfilled _ => dispose_resume st
  | Rejected e => emit (AConsoleError e) st
  end.

(** The promise jobs that follow a turn: every suspended [dispose] whose
    promise has settled is resumed. *)
Definition microtasks (st : State) : State :=
  let ready := filter (fun prm => isPending (promiseState prm st) = false)
                 (awaitingDispose st) in
  let st' := upd_awaitingDispose
               (filter (fun prm => isPending (promiseState prm st) = true)) st in
  foldl react st' ready.

(** The ['data'] listener installed by [init], up to its [await]. *)
Definition on_data (body : ParseResult) (st : State) : Completion * State :=
  match body with
  | ParseError => (Threw SyntaxError, st)
  | Parsed data =>
      if negb (JS.truthy data) then (Returned, st)
      else
        match pending_resolver (JS.get "id" data) st with
        | Some (id, prm) =>
            match JS.spread (JS.nullish (JS.get "payload" data) (JArr [])) with
            | None => (Threw TypeError, st)
            | Some items =>
                let st := settle prm (Fulfilled (new_ResponseArray items)) st in
                let st := upd_pendingMessages (fun m => delete id m) st in
                (Returned, microtasks st)
            end
        | None =>
            match bound_delegate (JS.get "eventname" data) st with
            | None => (Returned, st)
            | Some d => (Awaiting d data, st)
            end
        end
  end.

(** [processedResults] *)
Definition processedResults (data : Json) (results : list Json)
    (unfinished : nat) (st : State) : Response.t :=
  Response.mk (JS.get "id" data) (modulename st)
    (if Nat.eqb unfinished 0 then 200 else 207)
    (if Nat.eqb unfinished 0 then ""
     else PARTIAL_TIMEOUT +:+ "|" +:+ JS.show_nat unfinished)
    results.

(** The listener after [await invokeAsync(...)] has produced
    [[results, unfinished]]. *)
Definition on_data_resume (data : Json) (r : list Json * nat) (st : State)
    : Completion * State :=
  match stream_write (MResponse (processedResults data r.1 r.2 st)) st with
  | inl e => (Threw e, st)
  | inr st' => (Returned, st')
  end.

(** One message handled from its arrival to the end of the listener,
    the handlers behaving as [handler_run] says. *)
Definition on_data_run (body : ParseResult) (st : State) : Completion * State :=
  match on_data body st with
  | (Awaiting d data, st') =>
      on_data_resume data
        (Delegate.invokeAsync (handler_run E) (JS.get "timeout" data)
           (JS.get "payload" data) d) st'
  | done => done
  end.

(** [init()].  The static [EventHandler.instance] is outside the
    instance and is left out; the listener given to [on('data', ...)] is
    [on_data] above.  A process hook that fires calls [dispose]. *)
Definition init (fuel : nat) (st : State) : option (nat * State) :=
  let st := foldl (fun s ev => emit (AProcessOn ev) s) st exitEvents in
  let st := emit (AConnect (kernelPort st))
              (upd_secStream (fun _ => Some (mkStream false false)) st) in
  let st := emit AOnData
              (upd_secStream
                 (fun o => (fun s => mkStream true (destroyed s)) <$> o) st) in
  doRequest E fuel "kernel/init" (Configdata.timeout (config st)) (JObj []) st.

(** ** Runs *)

(** What can happen to an instance: a call of a public method or the
    arrival of a message on the stream. *)
Inductive Op : Type :=
  | OInit
  | ORequest (eventname : string) (payload : Json)
  | ORequestCustomTimeout (eventname : string) (timeout : Z) (payload : Json)
  | OSubscribe (eventname : string) (func : nat) (classcontext : option nat)
  | OUnsubscribe (eventname : string) (func : nat) (classcontext : option nat)
  | ODispose
  | OLog (logLevel : Z) (content : string)
  | OData (body : ParseResult).

(** A message reaches the listener of a stream that is open. *)
Definition deliver (body : ParseResult) (st : State) : State :=
  match secStream st with
  | Some s =>
      if dataListener s && negb (destroyed s)
      then (on_data_run body st).2 else st
  | None => st
  end.

Definition exec (fuel : nat) (op : Op) (st : State) : option State :=
  match op with
  | OInit => snd <$> init fuel st
  | ORequest e p => snd <$> request E fuel e p st
  | ORequestCustomTimeout e t p => snd <$> requestCustomTimeout E fuel e t p st
  | OSubscribe e f c => subscribe E fuel e f c st
  | OUnsubscribe e f c => unsubscribe E fuel e f c st
  | ODispose => dispose E fuel st
  | OLog l c => Log E fuel l c st
  | OData body => Some (deliver body st)
  end.

Fixpoint run (fuel : nat) (ops : list Op) (st : State) : option State :=
  match ops with
  | [] => Some st
  | op :: rest => st' ← exec fuel op st; run fuel rest st'
  end.

End Inbound.

(** ** The superseded listener

    The sources also hold the version of [init] that preceded the
    registry lookup in the listener (Eventhandler.ts).  It differs from
    the class above in two places the properties below depend on: the
    "kernel/init" envelope, which has no id, is written before the
    listener is installed, and the listener treats every message as an
    event and ends the stream once its response is written. *)

Module Superseded.

Inductive Action' : Type :=
  | Current (a : Action)
  | AWriteInit (modulename : option string) (eventname : string)
      (timeout : Z) (payload : Json)
  | AEnd.

(** [init()]: hooks, connect, write, then [on('data', ...)]; the promise
    it returns is never settled. *)
Definition init (st : State) : list Action' :=
  (Current <$> (AProcessOn <$> exitEvents))
    ++ [Current (AConnect (kernelPort st));
        AWriteInit (modulename st) "kernel/init"
          (Configdata.timeout (config st)) (JObj []);
        Current AOnData].

(** The listener up to its [await]: no lookup in [pendingMessages]. *)
Definition on_data (body : ParseResult) (st : State) : Completion :=
  match body with
  | ParseError => Threw SyntaxError
  | Parsed data =>
      if negb (JS.truthy data) then Returned
      else
        match bound_delegate (JS.get "eventname" data) st with
        | None => Returned
        | Some d => Awaiting d data
        end
  end.

(** The listener after the [await]: the response, then [secStream.end()]
    from the callback of the write. *)
Definition on_data_resume (data : Json) (r : list Json * nat) (st : State)
    : list Action' :=
  [Current (AWrite (MResponse (processedResults data r.1 r.2 st))); AEnd].

End Superseded.

(** ** A concrete instance

    An environment, a configuration and a few states on which the
    definitions are evaluated. *)

Module Demo.

Definition levelName (l : Z) : string :=
  if Z.eqb l 0 then "Debug" else if Z.eqb l 1 then "Info"
  else if Z.eqb l 2 then "Warning" else "Error".

(** Handler 1 completes with [{ok: true}]; any other handler never
    completes. *)
Definition handlers (b : Delegate.Binding) (timeout payload : Json) : option Json :=
  if Nat.eqb b.1 1 then Some (JObj [("ok", JBool true)]) else None.

Definition env : Env :=
  mkEnv (fun n => "uuid-" +:+ JS.show_nat n)
    (fun _ => "2021-06-01T12:00:00.000Z") 0 levelName
    (fun d => Eventdata.eventname d) handlers.

(** Warning level: debug lines are not sent. *)
Definition cfg : Configdata.t := Configdata.mk "secret" 1000 2.

(** Debug level: every request logs itself. *)
Definition cfgDebug : Configdata.t := Configdata.mk "secret" 1000 0.

Definition created : State := constructor 4000 cfg (Some "lamp").

Definition after (ops : list Op) (st : State) : State :=
  default st (run env 0 ops st).

(** Connected, "kernel/init" outstanding under the id "uuid-0". *)
Definition connected : State := after [OInit] created.

(** A response in the wire schema of the spec:
    [{id, modulename, statuscode, detailedstatus, content}]. *)
Definition wireResponse (id : string) : Json :=
  JObj [("id", JStr id); ("modulename", JStr "kernel");
        ("statuscode", JNum 200); ("detailedstatus", JStr "");
        ("content", JArr [JObj [("ok", JBool true)]])].

(** A response as the listener reads it: the results under [payload]. *)
Definition reply (id : string) (items : list Json) : Json :=
  JObj [("id", JStr id); ("payload", JArr items)].

Definition tempChanged (id : string) : Json :=
  JObj [("id", JStr id); ("eventname", JStr "temp/changed");
        ("timeout", JNum 50); ("payload", JObj [("v", JNum 10)])].

End Demo.

(** ** The static in-process handler

    Eventhandler.ts also holds the class [Eventhandler] that works on an
    [EventEmitter] inside one process: requests are told apart by a
    counter, handlers are bound under a key made of the event name and a
    hash of the text of the function. *)

Module Static.

(** [ToInt32]: the value wrapped into the signed 32 bit range. *)
Definition toInt32 (z : Z) : Z := (z + 2 ^ 31) mod 2 ^ 32 - 2 ^ 31.

(** [s.charCodeAt(i)] for every [i]; the strings of the model hold code
    units below 256. *)
Fixpoint codes (s : string) : list Z :=
  match s with
  | EmptyString => []
  | String c rest => Z.of_nat (Ascii.nat_of_ascii c) :: codes rest
  end.

(** One turn of the loop of [hashCode]:
    [hash = ((hash << 5) - hash) + char; hash = hash & hash]. *)
Definition hashStep (hash char : Z) : Z :=
  let hash := (toInt32 (Z.shiftl (toInt32 hash) 5) - hash) + char in
  Z.land (toInt32 hash) (toInt32 hash).

(** [String.prototype.hashCode] *)
Definition hashCode (s : string) : Z :=
  if Nat.eqb (String.length s) 0 then 0
  else fold_left hashStep (codes s) 0.

(** A number in a string concatenation. *)
Definition show_Z (z : Z) : string :=
  if Z.ltb z 0 then "-" +:+ JS.show_nat (Z.to_nat (- z))
  else JS.show_nat (Z.to_nat z).

(** A function value: its identity and the text [String(func)] gives. *)
Record Func : Type := mkFunc { fid : nat; source : string }.

(** [funcIdent] of [bind] and [unbind] *)
Definition funcIdent (eventName : string) (func : Func) : string :=
  eventName +:+ show_Z (hashCode (source func)).

(** The listeners the class puts on the emitter: the [helpFunc] that
    [bind] wraps around a handler ([h] is its identity), and the [func]
    a pending request listens with for its result. *)
Inductive Listener : Type :=
  | LHelp (h : nat) (eventName : string) (func : Func)
  | LResult (eventName : string) (curCounter : nat) (prm : nat).

#[global] Instance Func_eq_dec : EqDecision Func.
Proof. solve_decision. Defined.

#[global] Instance Listener_eq_dec : EqDecision Listener.
Proof. solve_decision. Defined.

Inductive PromiseState : Type :=
  | SPending
  | SResolved (data : Json)
  | SRejected.                 (* reject(null) *)

(** One call of [request]: its event name, its counter, its [resolved]
    flag and the promise it returned. *)
Record Request : Type := mkRequest
  { rname : string; rcounter : nat; resolved : bool; rstate : PromiseState }.

(** A handler started by a [helpFunc] and not yet finished: the event
    name and the counter the result will be emitted with. *)
Record Call : Type := mkCall
  { cname : string; ccounter : nat; cfunc : Func; cargs : list Json }.

(** The static fields, the listeners of the emitter, and what is under
    way.  [console] holds the values printed after "Got timeout: ". *)
Record State : Type := mkState
  { counter : nat;
    bindings : gmap string Listener;
    emitter : gmap string (list Listener);
    requestTimeout : Json;
    requests : list Request;
    helpFuncs : nat;                (* identities given out by [bind] *)
    inflight : list Call;
    awaitingConfig : list nat;      (* requests whose result sets the timeout *)
    console : list Json }.

Definition listenersOf (name : string) (st : State) : list Listener :=
  default [] (emitter st !! name).

Fixpoint remove_first (l : Listener) (ls : list Listener) : list Listener :=
  match ls with
  | [] => []
  | x :: rest => if decide (x = l) then rest else x :: remove_first l rest
  end.

(** [removeListener] takes out the instance added last. *)
Definition remove_last (l : Listener) (ls : list Listener) : list Listener :=
  rev (remove_first l (rev ls)).

Definition set_emitter (f : gmap string (list Listener) -> gmap string (list Listener))
    (st : State) : State :=
  mkState (counter st) (bindings st) (f (emitter st)) (requestTimeout st)
    (requests st) (helpFuncs st) (inflight st) (awaitingConfig st) (console st).

Definition set_requests (f : list Request -> list Request) (st : State) : State :=
  mkState (counter st) (bindings st) (emitter st) (requestTimeout st)
    (f (requests st)) (helpFuncs st) (inflight st) (awaitingConfig st) (console st).

Definition set_inflight (f : list Call -> list Call) (st : State) : State :=
  mkState (counter st) (bindings st) (emitter st) (requestTimeout st)
    (requests st) (helpFuncs st) (f (inflight st)) (awaitingConfig st) (console st).

(** [emitter.on(name, l)] *)
Definition on (name : string) (l : Listener) (st : State) : State :=
  set_emitter (fun m => <[name := listenersOf name st ++ [l]]> m) st.

(** [emitter.off(name, l)] *)
Definition off (name : string) (l : Listener) (st : State) : State :=
  set_emitter (fun m => <[name := remove_last l (listenersOf name st)]> m) st.

Definition stateOf (prm : nat) (st : State) : PromiseState :=
  default SPending (rstate <$> requests st !! prm).

(** [resolved = true; resolve(data)], and the [then] of the constructor
    when this is the request for the timeout. *)
Definition resolve (prm : nat) (data : Json) (st : State) : State :=
  match requests st !! prm with
  | Some r =>
      let settled := match rstate r with SPending => SResolved data | s => s end in
      let st := set_requests
                  (fun rs => <[prm := mkRequest (rname r) (rcounter r) true settled]> rs)
                  st in
      match rstate r with
      | SPending =>
          if decide (prm ∈ awaitingConfig st) then
            mkState (counter st) (bindings st) (emitter st) data
              (requests st) (helpFuncs st) (inflight st)
              (filter (fun q => q <> prm) (awaitingConfig st))
              (console st ++ [data])
          else st
      | _ => st
      end
  | None => st
  end.

(** [reject(null)] *)
Definition reject (prm : nat) (st : State) : State :=
  match requests st !! prm with
  | Some r =>
      match rstate r with
      | SPending =>
          set_requests
            (fun rs => <[prm := mkRequest (rname r) (rcounter r) (resolved r) SRejected]> rs)
            st
      | _ => st
      end
  | None => st
  end.

(** A listener called with [(counter, ...args)].  The [helpFunc] starts
    its handler, whose result comes later; the listener of a request
    drops every counter but its own. *)
Definition call (counter : nat) (args : list Json) (st : State) (l : Listener)
    : State :=
  match l with
  | LHelp h eventName func =>
      set_inflight (fun cs => cs ++ [mkCall eventName counter func args]) st
  | LResult eventName curCounter prm =>
      if Nat.eqb counter curCounter then
        resolve prm (hd JUndefined args)
          (off (eventName +:+ ":Result") (LResult eventName curCounter prm) st)
      else st
  end.

(** [emitter.emit(name, counter, ...args)]: the listeners registered at
    the time of the call, in the order they were added. *)
Definition emit_event (name : string) (counter : nat) (args : list Json)
    (st : State) : State :=
  foldl (call counter args) st (listenersOf name st).

(** [request(eventName, ...args)] up to [await sleep(...)]; the result
    is the promise. *)
Definition request (eventName : string) (args : list Json) (st : State)
    : nat * State :=
  let curCounter := counter st in
  let prm := length (requests st) in
  let st := mkState (S (counter st)) (bindings st) (emitter st) (requestTimeout st)
              (requests st ++ [mkRequest eventName curCounter false SPending])
              (helpFuncs st) (inflight st) (awaitingConfig st) (console st) in
  let st := on (eventName +:+ ":Result") (LResult eventName curCounter prm) st in
  (prm, emit_event eventName curCounter args st).

(** [request] after the [sleep] has elapsed. *)
Definition timeout (prm : nat) (st : State) : State :=
  match requests st !! prm with
  | Some r =>
      if resolved r then st
      else reject prm
             (off (rname r +:+ ":Result") (LResult (rname r) (rcounter r) prm) st)
  | None => st
  end.

(** [bind(eventName, func)] *)
Definition bind (eventName : string) (func : Func) (st : State) : State :=
  match bindings st !! funcIdent eventName func with
  | Some _ => st
  | None =>
      let helpFunc := LHelp (helpFuncs st) eventName func in
      let st := on eventName helpFunc st in
      mkState (counter st)
        (<[funcIdent eventName func := helpFunc]> (bindings st))
        (emitter st) (requestTimeout st) (requests st) (S (helpFuncs st))
        (inflight st) (awaitingConfig st) (console st)
  end.

(** [unbind(eventName, method)] *)
Definition unbind (eventName : string) (method : Func) (st : State) : State :=
  match bindings st !! funcIdent eventName method with
  | None => st
  | Some helpFunc =>
      let st := off eventName helpFunc st in
      mkState (counter st) (delete (funcIdent eventName method) (bindings st))
        (emitter st) (requestTimeout st) (requests st) (helpFuncs st)
        (inflight st) (awaitingConfig st) (console st)
  end.

(** [emit(eventName, ...data)] *)
Definition emit (eventName : string) (data : list Json) (st : State) : State :=
  emit_event eventName 0 data st.

(** The handler of the [i]-th call under way has produced [value]: its
    [helpFunc] emits the result under the counter it was called with. *)
Definition handler_done (i : nat) (value : Json) (st : State) : State :=
  match inflight st !! i with
  | Some c =>
      emit_event (cname c +:+ ":Result") (ccounter c) [value]
        (set_inflight (fun cs => delete i cs) st)
  | None => st
  end.

(** [new Eventhandler(emitter, requestTimeout?)]; [em] holds the
    listeners already on the emitter that is passed.  The counter and the
    bindings are static and stay. *)
Definition constructor (em : gmap string (list Listener)) (timeout : option Z)
    (st : State) : State :=
  let st := set_emitter (fun _ => em) st in
  match timeout with
  | Some ms =>
      mkState (counter st) (bindings st) (emitter st) (JNum ms)
        (requests st) (helpFuncs st) (inflight st) (awaitingConfig st) (console st)
  | None =>
      let '(prm, st) := request "Kernel:Config:RequestTimeout" [] st in
      mkState (counter st) (bindings st) (emitter st) (requestTimeout st)
        (requests st) (helpFuncs st) (inflight st)
        (awaitingConfig st ++ [prm]) (console st)
  end.

(** The class before any call. *)
Definition initial : State := mkState 0 ∅ ∅ JUndefined [] 0 [] [] [].

(** What can happen to the class; [ONew] constructs it with a new
    emitter, which has no listener. *)
Inductive Op : Type :=
  | ONew (timeout : option Z)
  | ORequest (eventName : string) (args : list Json)
  | OBind (eventName : string) (func : Func)
  | OUnbind (eventName : string) (func : Func)
  | OEmit (eventName : string) (data : list Json)
  | OHandlerDone (i : nat) (value : Json)
  | OTimeout (prm : nat).

Definition exec (st : State) (op : Op) : State :=
  match op with
  | ONew t => constructor ∅ t st
  | ORequest e a => (request e a st).2
  | OBind e f => bind e f st
  | OUnbind e f => unbind e f st
  | OEmit e d => emit e d st
  | OHandlerDone i v => handler_done i v st
  | OTimeout p => timeout p st
  end.

Definition run (ops : list Op) (st : State) : State := foldl exec st ops.

End Static.

(** ** Vocabulary of the statements *)

(** Debug lines are below the configured threshold, so that [doRequest]
    does not log itself. *)
Definition debug_off (E : Env) (cfg : Configdata.t) : Prop :=
  LogLevel_Debug E < Configdata.loglevel cfg.

(** The state in which [doRequest] reaches its write: identifier drawn,
    promise created, resolver stored. *)
Definition registered (E : Env) (st : State) : State :=
  pendingMessages_set (getUUID E (uuidCalls st)) (length (promises st))
    (upd_promises (fun ps => ps ++ [Pending]) (upd_uuidCalls S st)).

(** The bindings of an event name; none when it has no entry. *)
Definition funcs_of (eventname : string) (st : State) : Delegate.t :=
  default [] (bindings st !! eventname).

Definition isRequestNamed (name : string) (a : Action) : bool :=
  match a with
  | AWrite (MRequest d) => String.eqb (Eventdata.eventname d) name
  | _ => false
  end.

(** Number of requests for [name] written to the stream. *)
Definition requestsNamed (name : string) (tr : list Action) : nat :=
  length (filter (fun a => isRequestNamed name a = true) tr).

Definition isDestroy (a : Action) : bool :=
  match a with
  | ADestroy => true
  | _ => false
  end.

(** Number of times the stream has been closed. *)
Definition destroys (tr : list Action) : nat :=
  length (filter (fun a => isDestroy a = true) tr).


Definition isWrite (a : Action) : bool :=
  match a with
  | AWrite _ => true
  | _ => false
  end.

(** The messages written to the stream, in order. *)
Definition writes (tr : list Action) : list Action :=
  filter (fun a => isWrite a = true) tr.

(** [st'] is a later state of the instance [st]: same configuration and
    name, the disposed flag once set stays set, and a fulfilled promise
    keeps its value. *)
Definition extends (st st' : State) : Prop :=
  config st' = config st
  /\ modulename st' = modulename st
  /\ (disposed st = true -> disposed st' = true)
  /\ (forall q v, promiseState q st = Fulfilled v -> promiseState q st' = Fulfilled v).

(** The reading of the spec in which a correlated response resolves the
    pending entry with the [content] field of the envelope. *)
Definition resolves_with_content (data : Json) (st : State) : Prop :=
  forall id prm,
    pending_resolver (JS.get "id" data) st = Some (id, prm) ->
    promiseState prm st = Pending ->
    exists items,
      JS.get "content" data = JArr items
      /\ promiseState prm (on_data (Parsed data) st).2
         = Fulfilled (new_ResponseArray items).





(** What holds of every state an instance can reach: the registry only
    names promises that exist, an instance that is not disposed has no
    suspended [dispose] and an open history, and a suspended [dispose] and
    a closed stream exclude each other. *)
Definition Invariant (st : State) : Prop :=
  (forall id prm,
      pendingMessages st !! id = Some prm -> (prm < length (promises st))%nat)
  /\ (disposed st = false ->
      awaitingDispose st = [] /\ destroys (trace st) = 0%nat)
  /\ (length (awaitingDispose st) + destroys (trace st) <= 1)%nat.

(** A step that neither disposes nor closes: flag, suspended [dispose]
    and number of closings are as before, promises are only added, and a
    registry entry is an old one or names an existing promise. *)
Definition calm (st st' : State) : Prop :=
  disposed st' = disposed st
  /\ awaitingDispose st' = awaitingDispose st
  /\ destroys (trace st') = destroys (trace st)
  /\ (length (promises st) <= length (promises st'))%nat
  /\ (forall id prm,
        pendingMessages st' !! id = Some prm ->
        pendingMessages st !! id = Some prm
        \/ (prm < length (promises st'))%nat).

(** No event name is bound to an empty collection. *)
Definition noEmptyEntry (st : State) : Prop :=
  forall eventname d, bindings st !! eventname = Some d -> d <> [].

(** No promise is stored under two ids, and every stored promise
    exists. *)
Definition registryInjective (st : State) : Prop :=
  (forall id prm,
      pendingMessages st !! id = Some prm -> (prm < length (promises st))%nat)
  /\ (forall id1 id2 prm,
        pendingMessages st !! id1 = Some prm ->
        pendingMessages st !! id2 = Some prm -> id1 = id2).

(** A [dispose] has run and none is suspended: nothing is left that
    would close the stream. *)
Definition sealed (st : State) : Prop :=
  disposed st = true /\ awaitingDispose st = [].

(** ** Requests *)

Section RequestFacts.

Variable E : Env.

Lemma Log_with_below r logLevel content st :
  logLevel < Configdata.loglevel (config st) ->
  Log_with E r logLevel content st = Some st.
Proof.
  intros Hlt. unfold Log_with.
  by apply Z.ltb_lt in Hlt as ->.
Qed.

Lemma doRequest_quiet fuel path timeout payload st :
  debug_off E (config st) ->
  doRequest E fuel path timeout payload st =
    Some (length (promises st),
          send (length (promises st))
            (request_data (getUUID E (uuidCalls st)) path timeout payload st)
            (registered E st)).
Proof.
  intros Hoff.
  destruct fuel; simpl; rewrite Log_with_below; done.
Qed.

Lemma registered_fresh_pending st :
  promiseState (length (promises st)) (registered E st) = Pending.
Proof.
  unfold promiseState, registered; simpl.
  by rewrite lookup_app_r, Nat.sub_diag.
Qed.

Lemma registered_lookup st :
  pendingMessages (registered E st) !! getUUID E (uuidCalls st)
    = Some (length (promises st)).
Proof. unfold registered; simpl. apply lookup_insert_eq. Qed.

Lemma send_open prm data st s :
  secStream st = Some s ->
  send prm data st = emit (AWrite (MRequest data)) st.
Proof. intros Hs. unfold send, stream_write. by rewrite Hs. Qed.

Lemma send_undefined prm data st :
  secStream st = None ->
  send prm data st = settle prm (Rejected TypeError) st.
Proof. intros Hs. unfold send, stream_write. by rewrite Hs. Qed.

End RequestFacts.

Section OrderingFacts.

Variable E : Env.

Lemma trace_foldl_emit (f : string -> Action) evs st :
  trace (foldl (fun s ev => emit (f ev) s) st evs) = trace st ++ (f <$> evs).
Proof.
  revert st. induction evs as [|ev evs IH]; intros st; simpl.
  - by rewrite app_nil_r.
  - rewrite IH. simpl. by rewrite <- app_assoc.
Qed.

Lemma foldl_emit_fields (f : string -> Action) evs st :
  let st' := foldl (fun s ev => emit (f ev) s) st evs in
  modulename st' = modulename st /\ config st' = config st
  /\ bindings st' = bindings st /\ kernelPort st' = kernelPort st
  /\ secStream st' = secStream st /\ pendingMessages st' = pendingMessages st
  /\ disposed st' = disposed st /\ promises st' = promises st
  /\ uuidCalls st' = uuidCalls st /\ awaitingDispose st' = awaitingDispose st.
Proof.
  revert st. induction evs as [|ev evs IH]; intros st; simpl; [done|].
  apply (IH (emit (f ev) st)).
Qed.

Lemma react_fields st prm :
  promises (react st prm) = promises st
  /\ pendingMessages (react st prm) = pendingMessages st
  /\ bindings (react st prm) = bindings st
  /\ disposed (react st prm) = disposed st
  /\ config (react st prm) = config st
  /\ awaitingDispose (react st prm) = awaitingDispose st.
Proof.
  unfold react, dispose_resume, stream_destroy.
  destruct (promiseState prm st); [done| |done].
  destruct (secStream st); done.
Qed.

Lemma foldl_react_fields ps st :
  promises (foldl react st ps) = promises st
  /\ pendingMessages (foldl react st ps) = pendingMessages st
  /\ bindings (foldl react st ps) = bindings st
  /\ disposed (foldl react st ps) = disposed st
  /\ config (foldl react st ps) = config st
  /\ awaitingDispose (foldl react st ps) = awaitingDispose st.
Proof.
  revert st. induction ps as [|p ps IH]; intros st; simpl; [done|].
  destruct (IH (react st p)) as (-> & -> & -> & -> & -> & ->).
  apply react_fields.
Qed.

Lemma microtasks_fields st :
  promises (microtasks st) = promises st
  /\ pendingMessages (microtasks st) = pendingMessages st
  /\ bindings (microtasks st) = bindings st
  /\ disposed (microtasks st) = disposed st
  /\ config (microtasks st) = config st.
Proof.
  unfold microtasks.
  destruct (foldl_react_fields
              (filter (fun prm => isPending (promiseState prm st) = false)
                 (awaitingDispose st))
              (upd_awaitingDispose
                 (filter (fun prm => isPending (promiseState prm st) = true)) st))
    as (-> & -> & -> & -> & -> & _).
  done.
Qed.

Lemma promiseState_microtasks prm st :
  promiseState prm (microtasks st) = promiseState prm st.
Proof. unfold promiseState. by destruct (microtasks_fields st) as (-> & _). Qed.

Lemma promiseState_settle prm s st :
  promiseState prm st = Pending -> (prm < length (promises st))%nat ->
  promiseState prm (settle prm s st) = s.
Proof.
  intros Hp Hlt. unfold settle. rewrite Hp.
  unfold promiseState; simpl.
  by rewrite list_lookup_insert_eq.
Qed.


End OrderingFacts.

(** ** The data listener *)

Section InboundFacts.

Variable E : Env.

Lemma on_data_correlated data st id prm items :
  JS.truthy data = true ->
  pending_resolver (JS.get "id" data) st = Some (id, prm) ->
  JS.spread (JS.nullish (JS.get "payload" data) (JArr [])) = Some items ->
  on_data (Parsed data) st
  = (Returned,
     microtasks (upd_pendingMessages (fun m => delete id m)
                   (settle prm (Fulfilled (new_ResponseArray items)) st))).
Proof. intros Ht Hp Hs. unfold on_data. by rewrite Ht, Hp, Hs. Qed.

Lemma on_data_run_returned body st st' :
  on_data body st = (Returned, st') -> on_data_run E body st = (Returned, st').
Proof. intros H. unfold on_data_run. by rewrite H. Qed.

Lemma deliver_open body st s :
  secStream st = Some s -> dataListener s = true -> destroyed s = false ->
  deliver E body st = (on_data_run E body st).2.
Proof. intros Hs Hl Hd. unfold deliver. by rewrite Hs, Hl, Hd. Qed.

Lemma deliver_closed body st s :
  secStream st = Some s -> destroyed s = true -> deliver E body st = st.
Proof.
  intros Hs Hd. unfold deliver. rewrite Hs, Hd.
  by destruct (dataListener s).
Qed.

Lemma settle_keeps q p s st v :
  promiseState q st = Fulfilled v ->
  promiseState q (settle p s st) = Fulfilled v.
Proof.
  intros Hq. unfold settle.
  destruct (promiseState p st) eqn:Hp; try done.
  assert (p <> q) by (intros ->; congruence).
  unfold promiseState in *; simpl.
  by rewrite list_lookup_insert_ne.
Qed.

Lemma settle_fields p s st :
  pendingMessages (settle p s st) = pendingMessages st
  /\ bindings (settle p s st) = bindings st
  /\ disposed (settle p s st) = disposed st
  /\ config (settle p s st) = config st
  /\ secStream (settle p s st) = secStream st
  /\ awaitingDispose (settle p s st) = awaitingDispose st
  /\ trace (settle p s st) = trace st
  /\ length (promises (settle p s st)) = length (promises st).
Proof.
  unfold settle. destruct (promiseState p st); try done.
  simpl. by rewrite length_insert.
Qed.

Lemma react_trace st prm :
  exists extra,
    trace (react st prm) = trace st ++ extra
    /\ Forall (fun a => isWrite a = false) extra
    /\ (isPending (promiseState prm st) = true -> extra = [])
    /\ (length extra <= 1)%nat.
Proof.
  unfold react, dispose_resume, stream_destroy.
  destruct (promiseState prm st) eqn:Hp.
  - exists []. rewrite app_nil_r. repeat split; auto.
  - destruct (secStream st).
    + exists [ADestroy]. simpl. repeat split; auto. discriminate.
    + exists [AConsoleError TypeError]. simpl. repeat split; auto. discriminate.
  - exists [AConsoleError e]. simpl. repeat split; auto. discriminate.
Qed.

Lemma foldl_react_trace ps st :
  exists extra,
    trace (foldl react st ps) = trace st ++ extra
    /\ Forall (fun a => isWrite a = false) extra
    /\ (length extra <= length ps)%nat.
Proof.
  revert st. induction ps as [|p ps IH]; intros st; simpl.
  - exists []. rewrite app_nil_r. repeat split; auto.
  - destruct (react_trace st p) as (x1 & H1 & F1 & _ & L1).
    destruct (IH (react st p)) as (x2 & H2 & F2 & L2).
    exists (x1 ++ x2). rewrite H2, H1, <- app_assoc.
    repeat split; [by apply Forall_app|].
    rewrite length_app. lia.
Qed.

Lemma length_filter_pending (waiters : list nat) st :
  (length (filter (fun prm => isPending (promiseState prm st) = false) waiters)
   + length (filter (fun prm => isPending (promiseState prm st) = true) waiters)
   = length waiters)%nat.
Proof.
  induction waiters as [|w ws IH]; [done|].
  rewrite !filter_cons.
  destruct (isPending (promiseState w st)) eqn:Hw; simpl.
  - repeat case_decide; try done. simpl. lia.
  - repeat case_decide; try done. simpl. lia.
Qed.

Lemma microtasks_trace st :
  exists extra,
    trace (microtasks st) = trace st ++ extra
    /\ Forall (fun a => isWrite a = false) extra
    /\ (length extra + length (awaitingDispose (microtasks st))
        <= length (awaitingDispose st))%nat.
Proof.
  unfold microtasks.
  set (ready := filter _ (awaitingDispose st)).
  set (st' := upd_awaitingDispose _ st).
  destruct (foldl_react_trace ready st') as (extra & Htr & Hf & Hlen).
  destruct (foldl_react_fields ready st') as (_ & _ & _ & _ & _ & Ha).
  exists extra. rewrite Htr, Ha. repeat split; [done|].
  subst ready st'. simpl.
  pose proof (length_filter_pending (awaitingDispose st) st). lia.
Qed.

Lemma writes_app tr extra :
  Forall (fun a => isWrite a = false) extra -> writes (tr ++ extra) = writes tr.
Proof.
  intros Hf. unfold writes. rewrite filter_app.
  assert (filter (fun a => isWrite a = true) extra = []) as ->.
  { induction Hf as [|a l Ha Hl IH]; [done|].
    rewrite filter_cons. case_decide; [congruence|done]. }
  by rewrite app_nil_r.
Qed.

End InboundFacts.

(** ** What every step preserves *)

Section Extension.

Variable E : Env.

Lemma extends_refl st : extends st st.
Proof. by repeat split. Qed.

Lemma extends_trans st1 st2 st3 :
  extends st1 st2 -> extends st2 st3 -> extends st1 st3.
Proof.
  intros (Hc1 & Hm1 & Hd1 & Hp1) (Hc2 & Hm2 & Hd2 & Hp2).
  repeat split; try congruence; auto.
Qed.

Lemma extends_same st st' :
  config st' = config st -> modulename st' = modulename st ->
  disposed st' = disposed st -> promises st' = promises st ->
  extends st st'.
Proof.
  intros Hc Hm Hd Hp. repeat split; try congruence.
  intros q v. unfold promiseState. by rewrite Hp.
Qed.

Lemma extends_settle p s st : extends st (settle p s st).
Proof.
  destruct (settle_fields p s st) as (_ & _ & Hd & Hc & _).
  repeat split; try congruence.
  - unfold settle. by destruct (promiseState p st).
  - intros q v. apply settle_keeps.
Qed.

Lemma extends_registered st : extends st (registered E st).
Proof.
  repeat split; try done.
  intros q v Hq. unfold promiseState, registered in *; simpl.
  destruct (promises st !! q) as [x|] eqn:Hl; [|done].
  by rewrite (lookup_app_l_Some _ _ _ _ Hl).
Qed.

Lemma extends_send prm data st : extends st (send prm data st).
Proof.
  unfold send, stream_write. destruct (secStream st).
  - by apply extends_same.
  - apply extends_settle.
Qed.

Lemma extends_foldl_emit (f : string -> Action) evs st :
  extends st (foldl (fun s ev => emit (f ev) s) st evs).
Proof.
  destruct (foldl_emit_fields f evs st) as (Hm & Hc & _ & _ & _ & _ & Hd & Hp & _).
  by apply extends_same.
Qed.

Lemma extends_dispose_resume st : extends st (dispose_resume st).
Proof.
  unfold dispose_resume, stream_destroy.
  destruct (secStream st); by apply extends_same.
Qed.

Lemma extends_microtasks st : extends st (microtasks st).
Proof.
  destruct (microtasks_fields st) as (Hp & _ & _ & Hd & Hc).
  repeat split; try congruence.
  - unfold microtasks.
    set (ready := filter _ _). set (st' := upd_awaitingDispose _ _).
    assert (modulename st' = modulename st) as <- by done.
    clearbody st'. clear. revert st'.
    induction ready as [|p ps IH]; intros st'; [done|]. simpl.
    rewrite IH. unfold react, dispose_resume, stream_destroy.
    destruct (promiseState p st'); try done. by destruct (secStream st').
  - intros q v. by rewrite promiseState_microtasks.
Qed.

Lemma extends_doRequest fuel path timeout payload st r :
  debug_off E (config st) ->
  doRequest E fuel path timeout payload st = Some r -> extends st r.2.
Proof.
  intros Hoff. rewrite doRequest_quiet by done. intros [= <-]. simpl.
  eapply extends_trans; [apply extends_registered | apply extends_send].
Qed.

Lemma extends_on_data body st : extends st (on_data body st).2.
Proof.
  unfold on_data. destruct body as [|data]; [apply extends_refl|].
  destruct (negb (JS.truthy data)); [apply extends_refl|].
  destruct (pending_resolver _ st) as [[id prm]|].
  - destruct (JS.spread _) as [items|]; [|apply extends_refl]. simpl.
    eapply extends_trans; [|apply extends_microtasks].
    eapply extends_trans; [apply extends_settle|]. by apply extends_same.
  - destruct (bound_delegate _ st); apply extends_refl.
Qed.

Lemma extends_on_data_run body st : extends st (on_data_run E body st).2.
Proof.
  unfold on_data_run.
  pose proof (extends_on_data body st) as H.
  destruct (on_data body st) as [[| |d data] st']; try done.
  eapply extends_trans; [exact H|].
  unfold on_data_resume, stream_write.
  destruct (secStream st'); [by apply extends_same | apply extends_refl].
Qed.

Lemma extends_deliver body st : extends st (deliver E body st).
Proof.
  unfold deliver. destruct (secStream st) as [s|]; [|apply extends_refl].
  destruct (dataListener s && negb (destroyed s)); [|apply extends_refl].
  apply extends_on_data_run.
Qed.

Lemma extends_dispose_await prm st : extends st (dispose_await prm st).
Proof.
  unfold dispose_await. destruct (promiseState prm st).
  - by apply extends_same.
  - apply extends_dispose_resume.
  - by apply extends_same.
Qed.

Lemma extends_exec fuel op st st' :
  debug_off E (config st) -> exec E fuel op st = Some st' -> extends st st'.
Proof.
  intros Hoff. destruct op; simpl.
  - unfold init.
    set (st0 := foldl _ st exitEvents).
    set (st2 := emit AOnData _).
    assert (H02 : extends st st2).
    { eapply extends_trans; [apply (extends_foldl_emit AProcessOn)|].
      by apply extends_same. }
    destruct (doRequest _ _ _ _ _ _) as [r|] eqn:Hr; [|done].
    intros [= <-]. eapply extends_trans; [exact H02|].
    eapply extends_doRequest; [|exact Hr].
    destruct H02 as (-> & _). done.
  - unfold request, requestCustomTimeout.
    destruct (doRequest _ _ _ _ _ _) as [r|] eqn:Hr; [|done].
    intros [= <-]. by eapply extends_doRequest.
  - unfold requestCustomTimeout.
    destruct (doRequest _ _ _ _ _ _) as [r|] eqn:Hr; [|done].
    intros [= <-]. by eapply extends_doRequest.
  - unfold subscribe.
    destruct (bindings st !! eventname).
    + simpl. intros [= <-]. by apply extends_same.
    + unfold request, requestCustomTimeout.
      destruct (doRequest _ _ _ _ _ _) as [r|] eqn:Hr; [|done].
      simpl. intros [= <-].
      apply extends_doRequest in Hr; [|done].
      eapply extends_trans; [|eapply extends_trans; [exact Hr|]];
        by apply extends_same.
  - unfold unsubscribe.
    destruct (bindings st !! eventname); [|intros [= <-]; apply extends_refl].
    destruct (Nat.eqb _ 0).
    + intros [= <-]. by apply extends_same.
    + unfold request, requestCustomTimeout.
      destruct (doRequest _ _ _ _ _ _) as [r|] eqn:Hr; [|done].
      simpl. intros [= <-].
      apply extends_doRequest in Hr; [|done].
      eapply extends_trans; [|exact Hr]. by apply extends_same.
  - unfold dispose.
    destruct (disposed st) eqn:Hd; [intros [= <-]; apply extends_refl|].
    unfold request, requestCustomTimeout.
    set (st1 := upd_bindings _ _).
    assert (H01 : extends st st1).
    { destruct (foldl_emit_fields AProcessOff exitEvents (set_disposed true st))
        as (Hm & Hc & _ & _ & _ & _ & Hdd & Hp & _).
      split; [exact Hc|]. split; [exact Hm|]. split; [congruence|].
      intros q v. unfold promiseState.
      change (promises st1)
        with (promises (foldl (fun s ev => emit (AProcessOff ev) s)
                          (set_disposed true st) exitEvents)).
      by rewrite Hp. }
    destruct (doRequest _ _ _ _ _ _) as [[prm r]|] eqn:Hr; [|done].
    simpl. intros [= <-].
    apply extends_doRequest in Hr; [|by destruct H01 as (-> & _)].
    eapply extends_trans; [exact H01|].
    eapply extends_trans; [exact Hr|]. apply extends_dispose_await.
  - unfold Log, Log_with.
    destruct (Z.ltb _ _); [intros [= <-]; apply extends_refl|].
    unfold requestInternal.
    destruct (doRequest _ _ _ _ _ _) as [r|] eqn:Hr; [|done].
    intros [= <-]. by eapply extends_doRequest.
  - intros [= <-]. apply extends_deliver.
Qed.

Lemma extends_run fuel ops st st' :
  debug_off E (config st) -> run E fuel ops st = Some st' -> extends st st'.
Proof.
  revert st. induction ops as [|op ops IH]; intros st Hoff; simpl.
  - intros [= <-]. apply extends_refl.
  - destruct (exec E fuel op st) as [st1|] eqn:Hx; [|done]. simpl.
    intros Hr. pose proof (extends_exec _ _ _ _ Hoff Hx) as H1.
    eapply extends_trans; [exact H1|]. apply IH; [|done].
    by destruct H1 as (-> & _).
Qed.

(** With debug lines off every call returns. *)
Lemma exec_total fuel op st :
  debug_off E (config st) -> is_Some (exec E fuel op st).
Proof.
  intros Hoff. destruct op; simpl.
  - unfold init.
    set (st2 := emit AOnData _).
    assert (config st2 = config st) as Hc.
    { destruct (foldl_emit_fields AProcessOn exitEvents st) as (_ & Hc & _).
      exact Hc. }
    rewrite doRequest_quiet; [by eexists|by rewrite Hc].
  - unfold request, requestCustomTimeout. rewrite doRequest_quiet by done. by eexists.
  - unfold requestCustomTimeout. rewrite doRequest_quiet by done. by eexists.
  - unfold subscribe. destruct (bindings st !! eventname); [by eexists|].
    unfold request, requestCustomTimeout. rewrite doRequest_quiet by done.
    by eexists.
  - unfold unsubscribe. destruct (bindings st !! eventname); [|by eexists].
    destruct (Nat.eqb _ 0); [by eexists|].
    unfold request, requestCustomTimeout. rewrite doRequest_quiet by done.
    by eexists.
  - unfold dispose. destruct (disposed st); [by eexists|].
    unfold request, requestCustomTimeout.
    set (st1 := upd_bindings _ _).
    assert (config st1 = config st) as Hc.
    { destruct (foldl_emit_fields AProcessOff exitEvents (set_disposed true st))
        as (_ & Hc & _).
      exact Hc. }
    rewrite doRequest_quiet; [by eexists|by rewrite Hc].
  - unfold Log, Log_with. destruct (Z.ltb _ _); [by eexists|].
    unfold requestInternal. rewrite doRequest_quiet by done. by eexists.
  - by eexists.
Qed.

Lemma run_total fuel ops st :
  debug_off E (config st) -> is_Some (run E fuel ops st).
Proof.
  revert st. induction ops as [|op ops IH]; intros st Hoff; simpl; [by eexists|].
  destruct (exec_total fuel op st Hoff) as [st1 Hx]. rewrite Hx. simpl.
  apply IH. apply extends_exec in Hx; [|done]. by destruct Hx as (-> & _).
Qed.

(** With debug lines on, [doRequest] logs itself without end: no depth
    of call stack lets it return. *)
Lemma doRequest_debug_on_diverges fuel path timeout payload st :
  ~ debug_off E (config st) ->
  doRequest E fuel path timeout payload st = None.
Proof.
  revert path timeout payload st.
  induction fuel as [|fuel IH]; intros path timeout payload st Hon;
    simpl; unfold Log_with; simpl.
  - destruct (Z.ltb_spec (LogLevel_Debug E) (Configdata.loglevel (config st)));
      [by elim Hon|done].
  - destruct (Z.ltb_spec (LogLevel_Debug E) (Configdata.loglevel (config st)));
      [by elim Hon|].
    by rewrite IH.
Qed.

End Extension.

(** ** Correlation and dispatch *)

Section Correlation.

Variable E : Env.

Lemma pending_resolver_Some id_field st id prm :
  pending_resolver id_field st = Some (id, prm) ->
  id_field = JStr id /\ pendingMessages st !! id = Some prm.
Proof.
  unfold pending_resolver. destruct id_field; try done.
  destruct (pendingMessages st !! s) eqn:Hl; simpl; [|done].
  by intros [= <- <-].
Qed.

Lemma get_Some_truthy name data s :
  JS.get name data = JStr s -> JS.truthy data = true.
Proof. by destruct data. Qed.


(** C1 (amended): an inbound envelope whose id matches a pending entry
    and whose payload is absent, null or iterable resolves that entry
    with the items of the payload, removes the entry and is not
    dispatched as an event (the listener returns without awaiting any
    handler and writes nothing); whatever happens to the instance
    afterwards, a further envelope with the same id included, the
    promise keeps the value it was resolved with. *)
Theorem correlated_response_resolves data st id prm items :
  pending_resolver (JS.get "id" data) st = Some (id, prm) ->
  promiseState prm st = Pending ->
  (prm < length (promises st))%nat ->
  JS.spread (JS.nullish (JS.get "payload" data) (JArr [])) = Some items ->
  exists st',
    on_data (Parsed data) st = (Returned, st')
    /\ on_data_run E (Parsed data) st = (Returned, st')
    /\ promiseState prm st' = Fulfilled (new_ResponseArray items)
    /\ pendingMessages st' = delete id (pendingMessages st)
    /\ pending_resolver (JS.get "id" data) st' = None
    /\ bindings st' = bindings st
    /\ writes (trace st') = writes (trace st)
    /\ (forall body, promiseState prm (deliver E body st')
                     = Fulfilled (new_ResponseArray items))
    /\ (debug_off E (config st) ->
        forall fuel ops, exists st'',
          run E fuel ops st' = Some st''
          /\ promiseState prm st'' = Fulfilled (new_ResponseArray items)).
Proof.
  intros Hp Hpend Hlt Hs.
  destruct (pending_resolver_Some _ _ _ _ Hp) as (Hid & Hl).
  pose proof (get_Some_truthy _ _ _ Hid) as Ht.
  pose proof (on_data_correlated data st id prm items Ht Hp Hs) as Hon.
  set (st1 := upd_pendingMessages (fun m => delete id m)
                (settle prm (Fulfilled (new_ResponseArray items)) st)) in Hon.
  destruct (settle_fields prm (Fulfilled (new_ResponseArray items)) st)
    as (Hpm & Hb & Hd & Hc & Hss & Ha & Htr & Hlen).
  destruct (microtasks_fields st1) as (Hmp & Hmpm & Hmb & Hmd & Hmc).
  assert (Hful : promiseState prm (microtasks st1)
                 = Fulfilled (new_ResponseArray items)).
  { rewrite promiseState_microtasks.
    change (promiseState prm (settle prm (Fulfilled (new_ResponseArray items)) st)
            = Fulfilled (new_ResponseArray items)).
    by apply promiseState_settle. }
  exists (microtasks st1).
  split; [exact Hon|].
  split; [by apply on_data_run_returned|].
  split; [exact Hful|].
  split; [rewrite Hmpm; subst st1; simpl; by rewrite Hpm|].
  split.
  { rewrite Hid. unfold pending_resolver. rewrite Hmpm. subst st1; simpl.
    by rewrite lookup_delete_eq. }
  split; [rewrite Hmb; subst st1; simpl; by rewrite Hb|].
  split.
  { destruct (microtasks_trace st1) as (extra & -> & Hf & _).
    rewrite writes_app by done. subst st1; simpl. by rewrite Htr. }
  split.
  { intros body.
    by destruct (extends_deliver E body (microtasks st1)) as (_ & _ & _ & Hk);
      apply Hk. }
  intros Hoff fuel ops.
  assert (Hoff' : debug_off E (config (microtasks st1))).
  { rewrite Hmc. subst st1; simpl. by rewrite Hc. }
  destruct (run_total E fuel ops (microtasks st1) Hoff') as [st'' Hrun].
  exists st''. split; [done|].
  destruct (extends_run E fuel ops _ _ Hoff' Hrun) as (_ & _ & _ & Hk).
  by apply Hk.
Qed.


(** C2: an inbound envelope that is no response to a pending request
    and names an event with bound handlers is dispatched to them, and
    the response then written carries the id of the envelope, the name
    of this module and the results of the completed handlers; it has
    status 200 and empty detail exactly when no handler is unfinished,
    and status 207 with detail "PARTIAL_TIMEOUT|<count>" otherwise. *)
Theorem event_response_envelope data st d :
  JS.truthy data = true ->
  pending_resolver (JS.get "id" data) st = None ->
  bound_delegate (JS.get "eventname" data) st = Some d ->
  on_data (Parsed data) st = (Awaiting d data, st)
  /\ on_data_run E (Parsed data) st
     = on_data_resume data
         (Delegate.invokeAsync (handler_run E) (JS.get "timeout" data)
            (JS.get "payload" data) d) st
  /\ forall results unfinished st2 s,
       secStream st2 = Some s ->
       exists r,
         on_data_resume data (results, unfinished) st2
         = (Returned, emit (AWrite (MResponse r)) st2)
         /\ Response.id r = JS.get "id" data
         /\ Response.modulename r = modulename st2
         /\ Response.content r = results
         /\ (Response.statuscode r = 200 /\ Response.detailedstatus r = ""
             <-> unfinished = 0%nat)
         /\ (unfinished <> 0%nat ->
             Response.statuscode r = 207
             /\ Response.detailedstatus r
                = "PARTIAL_TIMEOUT|" +:+ JS.show_nat unfinished).
Proof.
  intros Ht Hp Hb.
  assert (Hon : on_data (Parsed data) st = (Awaiting d data, st)).
  { unfold on_data. by rewrite Ht, Hp, Hb. }
  split; [done|]. split; [unfold on_data_run; by rewrite Hon|].
  intros results unfinished st2 s Hs.
  exists (processedResults data results unfinished st2).
  split; [unfold on_data_resume, stream_write; by rewrite Hs|].
  unfold processedResults; simpl.
  split; [done|]. split; [done|]. split; [done|].
  destruct unfinished as [|k]; simpl.
  - split; [done|]. intros Hne. by elim Hne.
  - split; [|done]. split; [|done]. intros [? _]. discriminate.
Qed.

End Correlation.

(** ** Connecting *)

Section Connecting.

Variable E : Env.


End Connecting.

(** ** Subscriptions *)

Section Subscriptions.

Variable E : Env.

Lemma request_quiet fuel eventname payload st :
  debug_off E (config st) ->
  request E fuel eventname payload st =
    Some (length (promises st),
          send (length (promises st))
            (request_data (getUUID E (uuidCalls st)) eventname
               (Configdata.timeout (config st)) payload st)
            (registered E st)).
Proof. intros Hoff. unfold request, requestCustomTimeout. by apply doRequest_quiet. Qed.

Lemma send_fields prm data st :
  bindings (send prm data st) = bindings st
  /\ pendingMessages (send prm data st) = pendingMessages st
  /\ disposed (send prm data st) = disposed st
  /\ secStream (send prm data st) = secStream st
  /\ awaitingDispose (send prm data st) = awaitingDispose st
  /\ config (send prm data st) = config st.
Proof.
  unfold send, stream_write. destruct (secStream st) eqn:Hs; [by rewrite <- Hs|].
  by destruct (settle_fields prm (Rejected TypeError) st)
    as (-> & -> & -> & -> & -> & -> & _).
Qed.

Lemma requestsNamed_app name tr1 tr2 :
  requestsNamed name (tr1 ++ tr2)
  = (requestsNamed name tr1 + requestsNamed name tr2)%nat.
Proof. unfold requestsNamed. by rewrite filter_app, length_app. Qed.


Lemma unbind_absent func classcontext d :
  (func, classcontext) ∉ d -> Delegate.unbind func classcontext d = d.
Proof.
  induction d as [|b d IH]; intros Hnin; [done|]. simpl.
  apply not_elem_of_cons in Hnin as [Hne Hnin].
  case_decide; [congruence|]. by rewrite IH.
Qed.

Lemma subscribe_result fuel eventname func classcontext st :
  debug_off E (config st) ->
  exists st',
    subscribe E fuel eventname func classcontext st = Some st'
    /\ bindings st'
       = <[eventname := funcs_of eventname st ++ [(func, classcontext)]]>
           (bindings st)
    /\ (is_Some (bindings st !! eventname) ->
        trace st' = trace st /\ pendingMessages st' = pendingMessages st)
    /\ (bindings st !! eventname = None ->
        trace st'
        = trace (send (length (promises st))
                   (request_data (getUUID E (uuidCalls st)) "kernel/subscribe"
                      (Configdata.timeout (config st))
                      (JObj [("eventname", JStr eventname)]) st)
                   (registered E st))).
Proof.
  intros Hoff. unfold subscribe, funcs_of.
  destruct (bindings st !! eventname) as [d|] eqn:Hb; simpl.
  - eexists. split; [done|]. simpl.
    split; [|split; [done|by intros [=]]].
    apply map_eq. intros k. rewrite lookup_alter, lookup_insert.
    case_decide as Hk; [|done]. subst k. by rewrite Hb.
  - rewrite request_quiet by done. simpl.
    eexists. split; [done|]. simpl.
    set (st1 := upd_bindings _ st).
    destruct (send_fields (length (promises st))
                (request_data (getUUID E (uuidCalls st)) "kernel/subscribe"
                   (Configdata.timeout (config st))
                   (JObj [("eventname", JStr eventname)]) st1)
                (registered E st1)) as (Hsb & _).
    split; [|split; [by intros [? [=]]|]].
    + rewrite Hsb. simpl.
      apply map_eq. intros k. rewrite lookup_alter, !lookup_insert.
      repeat case_decide; done.
    + intros _. unfold send, stream_write. simpl.
      destruct (secStream st); [done|].
      unfold settle, promiseState. simpl.
      by destruct (default Pending _).
Qed.

Lemma unsubscribe_result fuel eventname func classcontext st d :
  debug_off E (config st) ->
  bindings st !! eventname = Some d ->
  let funcs := Delegate.unbind func classcontext d in
  let st1 := upd_bindings (fun m => <[eventname := funcs]> m) st in
  unsubscribe E fuel eventname func classcontext st
  = Some (if Nat.eqb (length funcs) 0
          then upd_bindings (fun m => delete eventname m) st1
          else send (length (promises st))
                 (request_data (getUUID E (uuidCalls st)) "kernel/unsubscribe"
                    (Configdata.timeout (config st))
                    (JObj [("eventname", JStr eventname)]) st)
                 (registered E st1)).
Proof.
  intros Hoff Hb. unfold unsubscribe. rewrite Hb. simpl.
  destruct (Nat.eqb _ 0); [done|].
  by rewrite request_quiet.
Qed.

End Subscriptions.

Section SubscriptionClaims.

Variable E : Env.

Lemma unsubscribe_bindings fuel eventname func classcontext st :
  debug_off E (config st) ->
  exists st',
    unsubscribe E fuel eventname func classcontext st = Some st'
    /\ funcs_of eventname st'
       = Delegate.unbind func classcontext (funcs_of eventname st)
    /\ (forall e, e <> eventname -> bindings st' !! e = bindings st !! e)
    /\ (bindings st' !! eventname = None
        <-> Delegate.unbind func classcontext (funcs_of eventname st) = []).
Proof.
  intros Hoff. unfold funcs_of.
  destruct (bindings st !! eventname) as [d|] eqn:Hb.
  - rewrite (unsubscribe_result E fuel eventname func classcontext st d Hoff Hb).
    simpl. eexists. split; [done|].
    destruct (Delegate.unbind func classcontext d) as [|b rest] eqn:Hu; simpl.
    + rewrite lookup_delete_eq. split; [done|].
      split; [|by rewrite lookup_delete_eq].
      intros e Hne. by rewrite lookup_delete_ne, lookup_insert_ne.
    + match goal with
      | |- context [send ?p ?dt ?s] =>
          destruct (send_fields p dt s) as (-> & _)
      end.
      simpl. rewrite !lookup_insert_eq. simpl.
      split; [done|]. split; [|split; intros [=]].
      intros e Hne. by rewrite lookup_insert_ne.
  - exists st. unfold unsubscribe.
    destruct (bindings st !! eventname); done.
Qed.


(** C5, on the code: unsubscribing the only binding of "temp/changed"
    removes the entry from the dispatch table and writes nothing to the
    stream, so that the broker is not told; with a second binding left
    the entry stays and "kernel/unsubscribe" is sent. *)
Theorem unsubscribe_last_binding_sends_nothing :
  let st := Demo.after [OInit; OSubscribe "temp/changed" 1 None] Demo.created in
  let st2 := Demo.after [OSubscribe "temp/changed" 2 None] st in
  funcs_of "temp/changed" st = [(1%nat, None)]
  /\ (exists st',
        unsubscribe Demo.env 0 "temp/changed" 1 None st = Some st'
        /\ bindings st' !! "temp/changed" = None
        /\ trace st' = trace st
        /\ requestsNamed "kernel/unsubscribe" (trace st') = 0%nat)
  /\ (exists st',
        unsubscribe Demo.env 0 "temp/changed" 1 None st2 = Some st'
        /\ bindings st' !! "temp/changed" = Some [(2%nat, None)]
        /\ requestsNamed "kernel/unsubscribe" (trace st') = 1%nat).
Proof.
  split; [by vm_compute|].
  split; eexists; (split; [by vm_compute|]); by vm_compute.
Qed.

(** The same, for every instance: the request goes out exactly when
    bindings remain, and the entry goes away exactly when none does. *)
Lemma unsubscribe_notifies_iff_bindings_remain
    fuel eventname func classcontext st d s :
  debug_off E (config st) ->
  bindings st !! eventname = Some d ->
  secStream st = Some s ->
  exists st',
    unsubscribe E fuel eventname func classcontext st = Some st'
    /\ (Delegate.unbind func classcontext d = [] ->
        bindings st' !! eventname = None /\ trace st' = trace st)
    /\ (Delegate.unbind func classcontext d <> [] ->
        bindings st' !! eventname = Some (Delegate.unbind func classcontext d)
        /\ requestsNamed "kernel/unsubscribe" (trace st')
           = S (requestsNamed "kernel/unsubscribe" (trace st))).
Proof.
  intros Hoff Hb Hs.
  rewrite (unsubscribe_result E fuel eventname func classcontext st d Hoff Hb).
  simpl. eexists. split; [done|].
  destruct (Delegate.unbind func classcontext d) as [|b rest]; simpl.
  - split; [|done]. intros _. by rewrite lookup_delete_eq.
  - split; [done|]. intros _.
    rewrite (send_open _ _ _ s) by done. simpl.
    rewrite lookup_insert_eq. split; [done|].
    rewrite <- app_assoc, requestsNamed_app. simpl.
    unfold requestsNamed at 2. simpl. lia.
Qed.

End SubscriptionClaims.

(** ** Disposal *)

Section Disposal.

Variable E : Env.

Lemma destroys_app tr1 tr2 :
  destroys (tr1 ++ tr2) = (destroys tr1 + destroys tr2)%nat.
Proof. unfold destroys. by rewrite filter_app, length_app. Qed.

Lemma destroys_le_length tr : (destroys tr <= length tr)%nat.
Proof. unfold destroys. apply length_filter. Qed.

Lemma destroys_map_off evs : destroys (AProcessOff <$> evs) = 0%nat.
Proof. induction evs; [done|]. simpl. unfold destroys in *. by rewrite filter_cons_False. Qed.

Lemma requestsNamed_nowrite name tr extra :
  Forall (fun a => isWrite a = false) extra ->
  requestsNamed name (tr ++ extra) = requestsNamed name tr.
Proof.
  intros Hf. rewrite requestsNamed_app.
  assert (requestsNamed name extra = 0%nat) as ->; [|lia].
  unfold requestsNamed.
  induction Hf as [|a l Ha Hl IH]; [done|].
  rewrite filter_cons_False; [done|]. by destruct a.
Qed.


(** The state a running [dispose] is suspended in, on an open stream. *)
Lemma dispose_open fuel st s :
  debug_off E (config st) ->
  disposed st = false ->
  secStream st = Some s ->
  let uuid := getUUID E (uuidCalls st) in
  let prm := length (promises st) in
  let data := request_data uuid "kernel/dispose"
                (Configdata.timeout (config st)) (JObj []) st in
  exists st1,
    dispose E fuel st = Some st1
    /\ disposed st1 = true
    /\ bindings st1 = ∅
    /\ pendingMessages st1 = <[uuid := prm]> (pendingMessages st)
    /\ promises st1 = promises st ++ [Pending]
    /\ secStream st1 = Some s
    /\ awaitingDispose st1 = awaitingDispose st ++ [prm]
    /\ config st1 = config st
    /\ trace st1 = trace st ++ (AProcessOff <$> exitEvents)
                     ++ [ARegister uuid; AWrite (MRequest data)].
Proof.
  intros Hoff Hd Hs uuid prm data.
  unfold dispose. rewrite Hd.
  destruct (foldl_emit_fields AProcessOff exitEvents (set_disposed true st))
    as (Hm & Hc & Hb & Hk & Hss & Hp & Hdd & Hpr & Hu & Ha).
  pose proof (trace_foldl_emit AProcessOff exitEvents (set_disposed true st)) as Htr.
  remember (foldl (fun s ev => emit (AProcessOff ev) s)
              (set_disposed true st) exitEvents) as st0.
  set (st1 := upd_bindings (fun _ => ∅) st0).
  assert (Hoff1 : debug_off E (config st1)) by (simpl; by rewrite Hc).
  rewrite (request_quiet E fuel _ _ st1 Hoff1). simpl.
  assert (Hopen : secStream (registered E st1) = Some s) by (simpl; by rewrite Hss).
  rewrite (send_open _ _ _ s Hopen).
  unfold dispose_await.
  assert (promiseState (length (promises st0))
            (emit (AWrite (MRequest
               (request_data (getUUID E (uuidCalls st0)) "kernel/dispose"
                  (Configdata.timeout (config st0)) (JObj []) st1)))
               (registered E st1)) = Pending) as ->
    by apply (registered_fresh_pending E st1).
  eexists. split; [done|]. unfold data, request_data. simpl.
  rewrite ?Hdd, ?Hp, ?Hpr, ?Hss, ?Ha, ?Hc, ?Htr, ?Hu, ?Hm. simpl.
  repeat split; try done.
  by rewrite <- !app_assoc.
Qed.

(** A running [dispose] on an undefined stream: the request is
    rejected, the error goes to the console and nothing is awaited. *)
Lemma dispose_undefined fuel st :
  debug_off E (config st) ->
  disposed st = false ->
  secStream st = None ->
  exists st1,
    dispose E fuel st = Some st1
    /\ disposed st1 = true
    /\ awaitingDispose st1 = awaitingDispose st
    /\ pendingMessages st1
       = <[getUUID E (uuidCalls st) := length (promises st)]> (pendingMessages st)
    /\ length (promises st1) = S (length (promises st))
    /\ trace st1 = trace st ++ (AProcessOff <$> exitEvents)
                     ++ [ARegister (getUUID E (uuidCalls st));
                         AConsoleError TypeError].
Proof.
  intros Hoff Hd Hs.
  unfold dispose. rewrite Hd.
  destruct (foldl_emit_fields AProcessOff exitEvents (set_disposed true st))
    as (Hm & Hc & Hb & Hk & Hss & Hp & Hdd & Hpr & Hu & Ha).
  pose proof (trace_foldl_emit AProcessOff exitEvents (set_disposed true st)) as Htr.
  remember (foldl (fun s ev => emit (AProcessOff ev) s)
              (set_disposed true st) exitEvents) as st0.
  set (st1 := upd_bindings (fun _ => ∅) st0).
  assert (Hoff1 : debug_off E (config st1)) by (simpl; by rewrite Hc).
  rewrite (request_quiet E fuel _ _ st1 Hoff1). simpl.
  assert (Hnone : secStream (registered E st1) = None) by (simpl; by rewrite Hss).
  rewrite (send_undefined _ _ _ Hnone).
  pose proof (registered_fresh_pending E st1) as Hfresh.
  change (length (promises st1)) with (length (promises st0)) in Hfresh.
  unfold dispose_await.
  rewrite (promiseState_settle _ _ _ Hfresh)
    by (simpl; rewrite length_app; simpl; lia).
  eexists. split; [done|].
  destruct (settle_fields (length (promises st0)) (Rejected TypeError)
              (registered E st1)) as (Hspm & _ & Hsd & _ & _ & Hsa & Hst & Hsl).
  simpl. rewrite ?Hsd, ?Hsa, ?Hst, ?Hspm, ?Hsl. simpl.
  rewrite ?Hdd, ?Ha, ?Htr, ?Hu, ?Hp, ?Hpr, ?length_app. simpl.
  repeat split; try done; [lia|].
  by rewrite <- !app_assoc.
Qed.

Lemma dispose_disposed fuel st :
  disposed st = true -> dispose E fuel st = Some st.
Proof. intros Hd. unfold dispose. by rewrite Hd. Qed.


End Disposal.

Section Closing.

Variable E : Env.



(** What the arrival of a message cannot do: set or reset the disposed
    flag, write a request, or close the stream without consuming a
    suspended [dispose]. *)
Lemma deliver_keeps name body st :
  disposed (deliver E body st) = disposed st
  /\ config (deliver E body st) = config st
  /\ requestsNamed name (trace (deliver E body st)) = requestsNamed name (trace st)
  /\ (destroys (trace (deliver E body st)) + length (awaitingDispose (deliver E body st))
      <= destroys (trace st) + length (awaitingDispose st))%nat.
Proof.
  assert (Hrefl : disposed st = disposed st /\ config st = config st
                  /\ requestsNamed name (trace st) = requestsNamed name (trace st)
                  /\ (destroys (trace st) + length (awaitingDispose st)
                      <= destroys (trace st) + length (awaitingDispose st))%nat)
    by (repeat split; lia).
  unfold deliver. destruct (secStream st) as [s|] eqn:Hs; [|done].
  destruct (dataListener s && negb (destroyed s)); [|done].
  unfold on_data_run, on_data.
  destruct body as [|data]; [done|].
  destruct (negb (JS.truthy data)); [done|].
  destruct (pending_resolver _ st) as [[id prm]|].
  - destruct (JS.spread _) as [items|]; [|done]. simpl.
    set (stA := upd_pendingMessages _ _).
    destruct (settle_fields prm (Fulfilled (new_ResponseArray items)) st)
      as (_ & _ & Hdd & Hc & _ & Haa & Htr & _).
    destruct (microtasks_fields stA) as (_ & _ & _ & Hmd & Hmc).
    destruct (microtasks_trace stA) as (extra & Ht & Hf & Hlen).
    rewrite Hmd, Hmc, Ht. subst stA. simpl in *. rewrite Hdd, Hc, Htr, Haa in *.
    split; [done|]. split; [done|].
    split; [by apply requestsNamed_nowrite|].
    rewrite destroys_app. pose proof (destroys_le_length extra). lia.
  - destruct (bound_delegate _ st) as [d|]; [|done].
    unfold on_data_resume, stream_write. rewrite Hs. simpl.
    split; [done|]. split; [done|].
    rewrite requestsNamed_app, destroys_app. simpl.
    unfold requestsNamed at 2, destroys at 2. simpl. split; lia.
Qed.


End Closing.

(** ** Disposal: the properties *)

Section DisposalClaims.

Variable E : Env.


End DisposalClaims.

Section Idempotence.

Variable E : Env.





End Idempotence.

(** ** Reachable states *)

Section Reachable.

Variable E : Env.

Lemma Invariant_constructor port cfg name : Invariant (constructor port cfg name).
Proof.
  split; [|split]; simpl.
  - intros id prm. by rewrite lookup_empty.
  - done.
  - unfold destroys. simpl. lia.
Qed.

Lemma calm_refl st : calm st st.
Proof. repeat split; auto. Qed.

Lemma calm_trans st1 st2 st3 : calm st1 st2 -> calm st2 st3 -> calm st1 st3.
Proof.
  intros (Hd1 & Ha1 & Hx1 & Hl1 & Hp1) (Hd2 & Ha2 & Hx2 & Hl2 & Hp2).
  split; [congruence|]. split; [congruence|]. split; [congruence|].
  split; [lia|].
  intros id prm H3. destruct (Hp2 id prm H3) as [H2|Hlt]; [|by right].
  destruct (Hp1 id prm H2) as [H1|Hlt]; [by left|right; lia].
Qed.

Lemma calm_frame st st' :
  pendingMessages st' = pendingMessages st ->
  promises st' = promises st ->
  disposed st' = disposed st ->
  awaitingDispose st' = awaitingDispose st ->
  destroys (trace st') = destroys (trace st) ->
  calm st st'.
Proof.
  intros Hpm Hpr Hd Ha Hx. repeat split; try done.
  - by rewrite Hpr.
  - intros id prm. rewrite Hpm. by left.
Qed.

Lemma destroys_emit a st :
  isDestroy a = false -> destroys (trace (emit a st)) = destroys (trace st).
Proof.
  intros Ha. simpl. rewrite destroys_app.
  unfold destroys at 2. rewrite filter_cons_False, filter_nil by congruence.
  simpl. lia.
Qed.

Lemma calm_emit a st : isDestroy a = false -> calm st (emit a st).
Proof. intros Ha. apply calm_frame; try done. by apply destroys_emit. Qed.

Lemma calm_foldl_emit (f : string -> Action) evs st :
  (forall ev, isDestroy (f ev) = false) ->
  calm st (foldl (fun s ev => emit (f ev) s) st evs).
Proof.
  intros Hf. revert st. induction evs as [|ev evs IH]; intros st; simpl.
  - apply calm_refl.
  - eapply calm_trans; [apply calm_emit, Hf|apply IH].
Qed.

Lemma calm_registered st : calm st (registered E st).
Proof.
  unfold registered, pendingMessages_set.
  split; [done|]. split; [done|].
  split; [by rewrite (destroys_emit (ARegister _))|].
  simpl. rewrite length_app. simpl. split; [lia|].
  intros id prm. rewrite lookup_insert. case_decide.
  - intros [= <-]. right. lia.
  - by left.
Qed.

Lemma calm_send prm data st : calm st (send prm data st).
Proof.
  unfold send, stream_write. destruct (secStream st).
  - by apply calm_emit.
  - destruct (settle_fields prm (Rejected TypeError) st)
      as (Hpm & _ & Hd & _ & _ & Ha & Ht & Hl).
    split; [done|]. split; [done|]. split; [by rewrite Ht|].
    split; [lia|]. intros id p. rewrite Hpm. by left.
Qed.

Lemma calm_doRequest fuel path timeout payload st r :
  debug_off E (config st) ->
  doRequest E fuel path timeout payload st = Some r -> calm st r.2.
Proof.
  intros Hoff. rewrite doRequest_quiet by done. intros [= <-]. simpl.
  eapply calm_trans; [apply calm_registered|apply calm_send].
Qed.

Lemma Invariant_calm st st' : calm st st' -> Invariant st -> Invariant st'.
Proof.
  intros (Hd & Ha & Hx & Hl & Hp) (Hwf & Hopen & Honce).
  split; [|split].
  - intros id prm H. destruct (Hp id prm H) as [Hold|Hlt]; [|done].
    pose proof (Hwf id prm Hold). lia.
  - rewrite Hd, Ha, Hx. exact Hopen.
  - rewrite Ha, Hx. exact Honce.
Qed.

Lemma Invariant_deliver body st : Invariant st -> Invariant (deliver E body st).
Proof.
  intros (Hwf & Hopen & Honce).
  destruct (deliver_keeps E "" body st) as (Hd & _ & _ & Hle).
  assert (Hreg : forall id prm,
             pendingMessages (deliver E body st) !! id = Some prm ->
             (prm < length (promises (deliver E body st)))%nat).
  { unfold deliver. destruct (secStream st) as [s|] eqn:Hs; [|done].
    destruct (dataListener s && negb (destroyed s)); [|done].
    unfold on_data_run, on_data.
    destruct body as [|data]; [done|].
    destruct (negb (JS.truthy data)); [done|].
    destruct (pending_resolver _ st) as [[id0 prm0]|].
    - destruct (JS.spread _) as [items|]; [|done]. simpl.
      set (stA := upd_pendingMessages _ _).
      destruct (microtasks_fields stA) as (Hmp & Hmpm & _).
      destruct (settle_fields prm0 (Fulfilled (new_ResponseArray items)) st)
        as (Hpm & _ & _ & _ & _ & _ & _ & Hl).
      intros id prm. rewrite Hmpm, Hmp. subst stA. simpl. rewrite Hpm, Hl.
      intros [_ H]%lookup_delete_Some. by apply (Hwf id).
    - destruct (bound_delegate _ st) as [d|]; [|done].
      unfold on_data_resume, stream_write. rewrite Hs. simpl. exact Hwf. }
  split; [exact Hreg|]. split.
  - rewrite Hd. intros Hf. destruct (Hopen Hf) as (Ha & Hx).
    rewrite Ha, Hx in Hle. simpl in Hle.
    split; [|lia].
    destruct (awaitingDispose (deliver E body st)); [done|simpl in Hle; lia].
  - lia.
Qed.

Lemma Invariant_exec fuel op st st' :
  debug_off E (config st) -> Invariant st ->
  exec E fuel op st = Some st' -> Invariant st'.
Proof.
  intros Hoff Hinv. destruct op; simpl.
  - unfold init.
    set (st0 := foldl _ st exitEvents).
    set (st2 := emit AOnData _).
    assert (H02 : calm st st2).
    { eapply calm_trans; [apply (calm_foldl_emit AProcessOn); done|].
      eapply calm_trans; [|by apply calm_emit].
      eapply calm_trans; [|by apply calm_emit].
      by apply calm_frame. }
    assert (Hc : config st2 = config st).
    { destruct (foldl_emit_fields AProcessOn exitEvents st) as (_ & Hc & _).
      exact Hc. }
    destruct (doRequest _ _ _ _ _ _) as [r|] eqn:Hr; [|done].
    intros [= <-]. apply (Invariant_calm st); [|done].
    eapply calm_trans; [exact H02|].
    eapply calm_doRequest; [|exact Hr]. by rewrite Hc.
  - unfold request, requestCustomTimeout.
    destruct (doRequest _ _ _ _ _ _) as [r|] eqn:Hr; [|done].
    intros [= <-]. apply (Invariant_calm st); [|done]. by eapply calm_doRequest.
  - unfold requestCustomTimeout.
    destruct (doRequest _ _ _ _ _ _) as [r|] eqn:Hr; [|done].
    intros [= <-]. apply (Invariant_calm st); [|done]. by eapply calm_doRequest.
  - unfold subscribe.
    destruct (bindings st !! eventname).
    + simpl. intros [= <-]. apply (Invariant_calm st); [|done]. by apply calm_frame.
    + unfold request, requestCustomTimeout.
      destruct (doRequest _ _ _ _ _ _) as [r|] eqn:Hr; [|done].
      simpl. intros [= <-]. apply (Invariant_calm st); [|done].
      apply calm_doRequest in Hr; [|done].
      eapply calm_trans; [|eapply calm_trans; [exact Hr|]]; by apply calm_frame.
  - unfold unsubscribe.
    destruct (bindings st !! eventname); [|by intros [= <-]].
    destruct (Nat.eqb _ 0).
    + intros [= <-]. apply (Invariant_calm st); [|done]. by apply calm_frame.
    + unfold request, requestCustomTimeout.
      destruct (doRequest _ _ _ _ _ _) as [r|] eqn:Hr; [|done].
      simpl. intros [= <-]. apply (Invariant_calm st); [|done].
      apply calm_doRequest in Hr; [|done].
      eapply calm_trans; [|exact Hr]. by apply calm_frame.
  - destruct (disposed st) eqn:Hd.
    { rewrite dispose_disposed by done. by intros [= <-]. }
    destruct Hinv as (Hwf & Hopen & Honce).
    destruct (Hopen Hd) as (Ha & Hx).
    destruct (secStream st) as [s|] eqn:Hs.
    + destruct (dispose_open E fuel st s Hoff Hd Hs)
        as (st1 & -> & Hd1 & _ & Hpm1 & Hpr1 & _ & Ha1 & _ & Ht1).
      intros [= <-]. split; [|split].
      * intros id prm. rewrite Hpm1, Hpr1, length_app, lookup_insert. simpl.
        case_decide; [intros [= <-]; lia|].
        intros H'. pose proof (Hwf id prm H'). lia.
      * by rewrite Hd1.
      * rewrite Ha1, Ha, Ht1, !destroys_app, destroys_map_off, Hx.
        unfold destroys. simpl. lia.
    + destruct (dispose_undefined E fuel st Hoff Hd Hs)
        as (st1 & -> & Hd1 & Ha1 & Hpm1 & Hl1 & Ht1).
      intros [= <-]. split; [|split].
      * intros id prm. rewrite Hpm1, Hl1, lookup_insert.
        case_decide; [intros [= <-]; lia|].
        intros H'. pose proof (Hwf id prm H'). lia.
      * by rewrite Hd1.
      * rewrite Ha1, Ha, Ht1, !destroys_app, destroys_map_off, Hx.
        unfold destroys. simpl. lia.
  - unfold Log, Log_with.
    destruct (Z.ltb _ _); [by intros [= <-]|].
    unfold requestInternal.
    destruct (doRequest _ _ _ _ _ _) as [r|] eqn:Hr; [|done].
    intros [= <-]. apply (Invariant_calm st); [|done]. by eapply calm_doRequest.
  - intros [= <-]. by apply Invariant_deliver.
Qed.

Lemma Invariant_run fuel ops st st' :
  debug_off E (config st) -> Invariant st ->
  run E fuel ops st = Some st' -> Invariant st'.
Proof.
  revert st. induction ops as [|op ops IH]; intros st Hoff Hinv; simpl.
  - by intros [= <-].
  - destruct (exec E fuel op st) as [st1|] eqn:Hx; [|done]. simpl.
    apply IH.
    + apply extends_exec in Hx; [|done]. by destruct Hx as (-> & _).
    + by eapply Invariant_exec.
Qed.

(** Whatever is done to an instance after its construction, its stream
    is closed at most once, and while it is not disposed no [dispose] is
    suspended. *)
Lemma stream_closed_at_most_once fuel ops port cfg name :
  debug_off E cfg ->
  exists st,
    run E fuel ops (constructor port cfg name) = Some st
    /\ Invariant st
    /\ (destroys (trace st) <= 1)%nat.
Proof.
  intros Hoff.
  destruct (run_total E fuel ops (constructor port cfg name) Hoff) as [st Hrun].
  exists st. split; [done|].
  assert (Hinv : Invariant st)
    by (apply (Invariant_run fuel ops (constructor port cfg name));
        [exact Hoff|apply Invariant_constructor|exact Hrun]).
  split; [done|]. destruct Hinv as (_ & _ & H). lia.
Qed.

End Reachable.

(** ** The fan-out and the superseded listener *)

Lemma length_omap_le {A B} (f : A -> option B) (l : list A) :
  (length (omap f l) <= length l)%nat.
Proof.
  induction l as [|a l IH]; [done|].
  change (omap f (a :: l))
    with (match f a with Some y => y :: omap f l | None => omap f l end).
  destruct (f a); simpl; lia.
Qed.

Lemma length_omap_all {A B} (f : A -> option B) (l : list A) :
  length (omap f l) = length l <-> Forall (fun a => is_Some (f a)) l.
Proof.
  induction l as [|a l IH].
  - split; [by constructor|done].
  - pose proof (length_omap_le f l) as Hle.
    change (omap f (a :: l))
      with (match f a with Some y => y :: omap f l | None => omap f l end).
    destruct (f a) as [b|] eqn:Ha; simpl.
    + split.
      * intros [= H]. constructor; [by rewrite Ha|by apply IH].
      * intros [_ H]%Forall_cons. f_equal. by apply IH.
    + split; [lia|].
      intros [Hx _]%Forall_cons. rewrite Ha in Hx. by destruct Hx.
Qed.

(** The fan-out of the spec: results and unfinished handlers add up to
    the bindings, and none is unfinished exactly when every handler
    completes in time. *)
Lemma invokeAsync_counts run timeout payload d :
  let r := Delegate.invokeAsync run timeout payload d in
  (r.2 + length r.1 = length d)%nat
  /\ (r.2 = 0%nat <-> Forall (fun b => is_Some (run b timeout payload)) d).
Proof.
  unfold Delegate.invokeAsync. simpl.
  pose proof (length_omap_le (fun b => run b timeout payload) d) as Hle.
  split; [lia|].
  rewrite <- (length_omap_all (fun b => run b timeout payload) d). lia.
Qed.

(** In the superseded [init] the "kernel/init" envelope is written before
    the listener is installed. *)
Lemma superseded_init_writes_first st :
  exists pre,
    Superseded.init st
    = pre ++ [Superseded.AWriteInit (modulename st) "kernel/init"
                (Configdata.timeout (config st)) (JObj []);
              Superseded.Current AOnData]
    /\ Superseded.Current AOnData ∉ pre.
Proof.
  exists ((Superseded.Current <$> (AProcessOn <$> exitEvents))
            ++ [Superseded.Current (AConnect (kernelPort st))]).
  split; [unfold Superseded.init; by rewrite <- app_assoc|].
  intros Hin. simpl in Hin.
  repeat (apply elem_of_cons in Hin as [Heq|Hin]; [discriminate|]).
  by apply elem_of_nil in Hin.
Qed.

(** The superseded listener does not consult the registry. *)
Lemma superseded_on_data_ignores_registry body st pm :
  Superseded.on_data body (upd_pendingMessages (fun _ => pm) st)
  = Superseded.on_data body st.
Proof. done. Qed.

(** ** Where the code departs from the spec *)

Section Departures.

(** C1: a response in the wire schema of the spec, whose results are
    under [content], matches the pending "kernel/init" request, and the
    request is resolved with the empty list: the listener reads
    [payload]. *)
Lemma wire_response_content_not_delivered :
  ~ resolves_with_content (Demo.wireResponse "uuid-0") Demo.connected.
Proof.
  intros H.
  destruct (H "uuid-0" 0%nat) as (items & Hc & Hr).
  - by vm_compute.
  - by vm_compute.
  - vm_compute in Hc, Hr. congruence.
Qed.

(** A payload that is not iterable makes the listener raise before it
    resolves or removes the entry. *)
Lemma object_payload_leaves_entry_pending :
  let data := JObj [("id", JStr "uuid-0"); ("payload", JObj [])] in
  on_data (Parsed data) Demo.connected = (Threw TypeError, Demo.connected)
  /\ pendingMessages Demo.connected !! "uuid-0" = Some 0%nat
  /\ promiseState 0 Demo.connected = Pending.
Proof. by vm_compute. Qed.



(** With the debug level configured every request logs itself through
    [Log], whose request logs itself in turn: [init] does not return for
    any depth of call stack. *)
Lemma debug_level_request_recurses fuel :
  init Demo.env fuel (constructor 4000 Demo.cfgDebug (Some "lamp")) = None.
Proof.
  unfold init. apply doRequest_debug_on_diverges.
  unfold debug_off. simpl. lia.
Qed.


End Departures.

(** ** The properties on the concrete instance *)

Section Instances.

Let ok : Json := JObj [("ok", JBool true)].



Lemma correlated_response_resolves_witness :
  pending_resolver (JS.get "id" (Demo.reply "uuid-0" [ok])) Demo.connected
  = Some ("uuid-0", 0%nat)
  /\ promiseState 0 Demo.connected = Pending
  /\ exists st',
       on_data (Parsed (Demo.reply "uuid-0" [ok])) Demo.connected = (Returned, st')
       /\ promiseState 0 st' = Fulfilled [ok]
       /\ pending_resolver (JS.get "id" (Demo.reply "uuid-0" [ok])) st' = None.
Proof.
  assert (H1 : pending_resolver (JS.get "id" (Demo.reply "uuid-0" [ok])) Demo.connected
               = Some ("uuid-0", 0%nat)) by (vm_compute; reflexivity).
  assert (H2 : promiseState 0 Demo.connected = Pending) by (vm_compute; reflexivity).
  assert (H3 : (0 < length (promises Demo.connected))%nat) by (vm_compute; lia).
  assert (H4 : JS.spread (JS.nullish (JS.get "payload" (Demo.reply "uuid-0" [ok]))
                            (JArr [])) = Some [ok]) by (vm_compute; reflexivity).
  split; [exact H1|]. split; [exact H2|].
  destruct (correlated_response_resolves Demo.env _ _ _ _ _ H1 H2 H3 H4)
    as (st' & Ha & _ & Hb & _ & Hc & _).
  exists st'. split; [exact Ha|]. split; [exact Hb|exact Hc].
Defined.


Lemma event_response_envelope_witness :
  let st := Demo.after [OInit; OSubscribe "temp/changed" 1 None;
                        OSubscribe "temp/changed" 2 None] Demo.created in
  let data := Demo.tempChanged "abc" in
  JS.truthy data = true
  /\ pending_resolver (JS.get "id" data) st = None
  /\ bound_delegate (JS.get "eventname" data) st
     = Some [(1%nat, None); (2%nat, None)]
  /\ exists r,
       on_data_resume data ([ok], 1%nat) st
       = (Returned, emit (AWrite (MResponse r)) st)
       /\ Response.id r = JStr "abc"
       /\ Response.statuscode r = 207
       /\ Response.detailedstatus r = "PARTIAL_TIMEOUT|1".
Proof.
  intros st data.
  assert (H1 : JS.truthy data = true) by reflexivity.
  assert (H2 : pending_resolver (JS.get "id" data) st = None)
    by (vm_compute; reflexivity).
  assert (H3 : bound_delegate (JS.get "eventname" data) st
               = Some [(1%nat, None); (2%nat, None)]) by (vm_compute; reflexivity).
  assert (H4 : secStream st = Some (mkStream true false)) by (vm_compute; reflexivity).
  split; [exact H1|]. split; [exact H2|]. split; [exact H3|].
  destruct (event_response_envelope Demo.env data st _ H1 H2 H3) as (_ & _ & H).
  destruct (H [ok] 1%nat st _ H4) as (r & Ha & Hb & _ & _ & _ & Hc).
  destruct Hc as (Hc1 & Hc2); [lia|].
  exists r. split; [exact Ha|]. split; [exact Hb|]. split; [exact Hc1|exact Hc2].
Defined.





End Instances.

(** ** Further properties of the class *)

Section ClassFacts.

Variable E : Env.

Lemma registered_fields st :
  bindings (registered E st) = bindings st
  /\ secStream (registered E st) = secStream st
  /\ disposed (registered E st) = disposed st
  /\ config (registered E st) = config st
  /\ pendingMessages (registered E st)
     = <[getUUID E (uuidCalls st) := length (promises st)]> (pendingMessages st)
  /\ promises (registered E st) = promises st ++ [Pending]
  /\ trace (registered E st) = trace st ++ [ARegister (getUUID E (uuidCalls st))].
Proof. done. Qed.

(** What a request does to the instance, whatever the stream. *)
Lemma request_effect fuel eventname timeout payload st :
  debug_off E (config st) ->
  exists st',
    doRequest E fuel eventname timeout payload st = Some (length (promises st), st')
    /\ bindings st' = bindings st
    /\ secStream st' = secStream st
    /\ disposed st' = disposed st
    /\ config st' = config st
    /\ awaitingDispose st' = awaitingDispose st
    /\ pendingMessages st'
       = <[getUUID E (uuidCalls st) := length (promises st)]> (pendingMessages st)
    /\ length (promises st') = S (length (promises st))
    /\ (forall q, (q < length (promises st))%nat ->
          promiseState q st' = promiseState q st).
Proof.
  intros Hoff. rewrite doRequest_quiet by done. eexists. split; [done|].
  match goal with
  | |- context [send ?p ?dt ?s] =>
      destruct (send_fields p dt s) as (-> & -> & -> & -> & -> & ->)
  end.
  do 6 (split; [done|]).
  unfold send, stream_write. simpl.
  destruct (secStream st); simpl.
  - split; [rewrite length_app; simpl; lia|].
    intros q Hq. unfold promiseState. simpl. by rewrite lookup_app_l.
  - unfold settle. rewrite registered_fresh_pending. simpl.
    rewrite length_insert, length_app. simpl. split; [lia|].
    intros q Hq. unfold promiseState. simpl.
    rewrite list_lookup_insert_ne by lia. by rewrite lookup_app_l.
Qed.

Lemma dispose_await_fields prm st :
  bindings (dispose_await prm st) = bindings st
  /\ disposed (dispose_await prm st) = disposed st
  /\ pendingMessages (dispose_await prm st) = pendingMessages st
  /\ promises (dispose_await prm st) = promises st
  /\ config (dispose_await prm st) = config st.
Proof.
  unfold dispose_await, dispose_resume, stream_destroy.
  destruct (promiseState prm st); [done| |done].
  by destruct (secStream st).
Qed.

Lemma deliver_fields body st :
  bindings (deliver E body st) = bindings st
  /\ config (deliver E body st) = config st
  /\ length (promises (deliver E body st)) = length (promises st)
  /\ exists extra, trace (deliver E body st) = trace st ++ extra.
Proof.
  assert (Hrefl : bindings st = bindings st /\ config st = config st
                  /\ length (promises st) = length (promises st)
                  /\ exists extra, trace st = trace st ++ extra).
  { repeat split. exists []. by rewrite app_nil_r. }
  unfold deliver. destruct (secStream st) as [s|] eqn:Hs; [|done].
  destruct (dataListener s && negb (destroyed s)); [|done].
  unfold on_data_run, on_data.
  destruct body as [|data]; [done|].
  destruct (negb (JS.truthy data)); [done|].
  destruct (pending_resolver _ st) as [[id prm]|].
  - destruct (JS.spread _) as [items|]; [|done]. simpl.
    set (stA := upd_pendingMessages _ _).
    destruct (settle_fields prm (Fulfilled (new_ResponseArray items)) st)
      as (_ & Hb & _ & Hc & _ & _ & Htr & Hl).
    destruct (microtasks_fields stA) as (Hmp & _ & Hmb & _ & Hmc).
    destruct (microtasks_trace stA) as (extra & Ht & _).
    rewrite Hmp, Hmb, Hmc, Ht. subst stA. simpl. rewrite Hb, Hc, Htr, Hl.
    repeat split. by exists extra.
  - destruct (bound_delegate _ st) as [d|]; [|done].
    unfold on_data_resume, stream_write. rewrite Hs. simpl.
    repeat split. by eexists.
Qed.

Lemma dispose_bindings fuel st st' :
  debug_off E (config st) ->
  dispose E fuel st = Some st' ->
  st' = st \/ bindings st' = ∅.
Proof.
  intros Hoff. unfold dispose.
  destruct (disposed st); [intros [= <-]; by left|].
  set (st1 := upd_bindings _ _).
  assert (Hc : config st1 = config st).
  { destruct (foldl_emit_fields AProcessOff exitEvents (set_disposed true st))
      as (_ & Hc & _). exact Hc. }
  unfold request, requestCustomTimeout.
  destruct (request_effect fuel "kernel/dispose" (Configdata.timeout (config st1))
              (JObj []) st1) as (st2 & -> & Hb & _); [by rewrite Hc|].
  pose proof (dispose_await_fields (length (promises st1)) st2) as (Hda & _).
  simpl. intros [= <-]. right.
  etransitivity; [exact Hda|]. by rewrite Hb.
Qed.

Lemma noEmptyEntry_exec fuel op st st' :
  debug_off E (config st) -> noEmptyEntry st ->
  exec E fuel op st = Some st' -> noEmptyEntry st'.
Proof.
  intros Hoff Hne.
  assert (Hsame : forall st2, bindings st2 = bindings st -> noEmptyEntry st2).
  { intros st2 Hb e d. rewrite Hb. apply Hne. }
  destruct op; simpl.
  - unfold init.
    set (st2 := emit AOnData _).
    destruct (foldl_emit_fields AProcessOn exitEvents st)
      as (_ & Hc & Hb & _).
    destruct (request_effect fuel "kernel/init" (Configdata.timeout (config st2))
                (JObj []) st2) as (st3 & -> & Hb3 & _);
      [unfold debug_off; change (config st2) with
         (config (foldl (fun s ev => emit (AProcessOn ev) s) st exitEvents));
       by rewrite Hc|].
    simpl. intros [= <-]. apply Hsame. rewrite Hb3. exact Hb.
  - unfold request, requestCustomTimeout.
    destruct (request_effect fuel eventname (Configdata.timeout (config st))
                payload st Hoff) as (st3 & -> & Hb3 & _).
    simpl. intros [= <-]. by apply Hsame.
  - unfold requestCustomTimeout.
    destruct (request_effect fuel eventname timeout payload st Hoff)
      as (st3 & -> & Hb3 & _).
    simpl. intros [= <-]. by apply Hsame.
  - destruct (subscribe_result E fuel eventname func classcontext st Hoff)
      as (st3 & -> & Hb & _).
    intros [= <-] e d. rewrite Hb, lookup_insert.
    case_decide; [|apply Hne].
    intros [= <-]. by destruct (funcs_of eventname st).
  - destruct (unsubscribe_bindings E fuel eventname func classcontext st Hoff)
      as (st3 & -> & Hf & Hother & Hnone).
    intros [= <-] e d Hd.
    destruct (decide (e = eventname)) as [->|Hneq].
    + intros ->. unfold funcs_of in Hf at 1. rewrite Hd in Hf. simpl in Hf.
      symmetry in Hf. apply Hnone in Hf.
      pose proof (eq_trans (eq_sym Hd) Hf) as Hx. discriminate Hx.
    + rewrite Hother in Hd by done. by apply (Hne e).
  - intros Hd. destruct (dispose_bindings fuel st st' Hoff Hd) as [->|Hb]; [done|].
    intros e d. by rewrite Hb, lookup_empty.
  - unfold Log, Log_with.
    destruct (Z.ltb _ _); [by intros [= <-]|].
    unfold requestInternal.
    destruct (request_effect fuel "kernel/log" (Configdata.timeout (config st))
                (JObj [("message", JStr (log_line E logLevel content st))]) st Hoff)
      as (st3 & -> & Hb3 & _).
    simpl. intros [= <-]. by apply Hsame.
  - intros [= <-]. apply Hsame. by destruct (deliver_fields body st) as (-> & _).
Qed.

(** X1: from construction on, whatever is called and whatever arrives, no
    event name is left bound to an empty collection: [subscribe] binds
    right after creating an entry, [unsubscribe] deletes an entry it has
    emptied and [dispose] clears the table. *)
Theorem no_empty_subscription_persists fuel ops port cfg name :
  debug_off E cfg ->
  exists st,
    run E fuel ops (constructor port cfg name) = Some st
    /\ noEmptyEntry st.
Proof.
  intros Hoff.
  assert (Hgen : forall ops st,
             debug_off E (config st) -> noEmptyEntry st ->
             exists st', run E fuel ops st = Some st' /\ noEmptyEntry st').
  { clear ops. induction ops as [|op ops IH]; intros st Hoff' Hne; simpl.
    - by exists st.
    - destruct (exec_total E fuel op st Hoff') as [st1 Hx]. rewrite Hx. simpl.
      apply IH.
      + apply extends_exec in Hx; [|done]. by destruct Hx as (-> & _).
      + by eapply noEmptyEntry_exec. }
  apply Hgen; [done|].
  intros e d. simpl. by rewrite lookup_empty.
Qed.

Lemma requestsNamed_register name id : requestsNamed name [ARegister id] = 0%nat.
Proof. done. Qed.

Lemma requestsNamed_write name d :
  requestsNamed name [AWrite (MRequest d)]
  = if String.eqb (Eventdata.eventname d) name then 1%nat else 0%nat.
Proof.
  unfold requestsNamed. rewrite filter_cons, filter_nil. simpl.
  by destruct (String.eqb (Eventdata.eventname d) name).
Qed.

Lemma funcs_of_None eventname st :
  bindings st !! eventname = None -> funcs_of eventname st = [].
Proof. intros H. exact (f_equal (default []) H). Qed.

Lemma funcs_of_Some eventname st d :
  bindings st !! eventname = Some d -> funcs_of eventname st = d.
Proof. intros H. exact (f_equal (default []) H). Qed.

(** X2: a request returns exactly when the configured level excludes
    debug lines.  [doRequest] hands its debug line to [Log] with the
    instance as logger, and [Log] sends a line that passes the threshold
    through [requestInternal], that is through [doRequest] again: with
    debug lines admitted no depth of call stack is enough, for requests
    and for every [Log] call that is not filtered out. *)
Theorem request_returns_iff_debug_off fuel path timeout payload logLevel content st :
  (is_Some (doRequest E fuel path timeout payload st) <-> debug_off E (config st))
  /\ (is_Some (Log E fuel logLevel content st)
      <-> logLevel < Configdata.loglevel (config st) \/ debug_off E (config st)).
Proof.
  assert (Hreq : forall path timeout payload,
             is_Some (doRequest E fuel path timeout payload st)
             <-> debug_off E (config st)).
  { intros p t pl. split.
    - intros [r Hr].
      destruct (Z.lt_ge_cases (LogLevel_Debug E) (Configdata.loglevel (config st)))
        as [Hlt|Hge]; [done|].
      rewrite doRequest_debug_on_diverges in Hr; [done|].
      unfold debug_off. lia.
    - intros Hoff. rewrite doRequest_quiet by done. by eexists. }
  split; [apply Hreq|].
  unfold Log, Log_with, requestInternal.
  destruct (Z.ltb_spec logLevel (Configdata.loglevel (config st))) as [Hlt|Hge].
  - split; [by left|by eexists].
  - rewrite fmap_is_Some, Hreq. split; [by right|].
    intros [Hlt|Hoff]; [lia|done].
Qed.

(** X3: [Log] filters by the configured level.  A line below the level
    leaves the instance as it is; a line at or above it costs one
    "kernel/log" request, written with the configured timeout and the
    formatted line as its message. *)
Theorem Log_sends_at_threshold fuel logLevel content st s :
  debug_off E (config st) ->
  secStream st = Some s ->
  exists st',
    Log E fuel logLevel content st = Some st'
    /\ (logLevel < Configdata.loglevel (config st) -> st' = st)
    /\ (Configdata.loglevel (config st) <= logLevel ->
        writes (trace st')
        = writes (trace st)
            ++ [AWrite (MRequest
                  (Eventdata.mk (getUUID E (uuidCalls st))
                     (Configdata.pass (config st)) (modulename st) "kernel/log"
                     (Configdata.timeout (config st))
                     (JObj [("message", JStr (log_line E logLevel content st))])))]
        /\ requestsNamed "kernel/log" (trace st')
           = S (requestsNamed "kernel/log" (trace st))).
Proof.
  intros Hoff Hs. unfold Log, Log_with, requestInternal.
  destruct (Z.ltb_spec logLevel (Configdata.loglevel (config st))) as [Hlt|Hge].
  - exists st. split; [done|]. split; [done|lia].
  - rewrite doRequest_quiet by done. simpl. eexists. split; [done|].
    split; [lia|]. intros _.
    rewrite (send_open _ _ _ s) by done. simpl.
    rewrite <- app_assoc. unfold writes. rewrite filter_app, requestsNamed_app.
    split; [done|]. unfold requestsNamed at 2. simpl. lia.
Qed.

(** X4: a request made before [init] has opened the stream is lost: the
    promise it returns is rejected with the [TypeError] of the write,
    nothing is written, and the id stays in the registry. *)
Theorem request_unconnected_is_rejected fuel eventname payload st :
  debug_off E (config st) ->
  secStream st = None ->
  exists prm st',
    request E fuel eventname payload st = Some (prm, st')
    /\ promiseState prm st' = Rejected TypeError
    /\ pendingMessages st' !! getUUID E (uuidCalls st) = Some prm
    /\ writes (trace st') = writes (trace st)
    /\ forall body, promiseState prm (deliver E body st') = Rejected TypeError.
Proof.
  intros Hoff Hs. rewrite request_quiet by done.
  rewrite send_undefined by done.
  eexists _, _. split; [done|].
  pose proof (registered_fresh_pending E st) as Hfresh.
  destruct (settle_fields (length (promises st)) (Rejected TypeError)
              (registered E st)) as (Hpm & _ & _ & _ & Hss & _ & Htr & _).
  assert (Hrej : promiseState (length (promises st))
                   (settle (length (promises st)) (Rejected TypeError)
                      (registered E st)) = Rejected TypeError).
  { apply promiseState_settle; [done|]. simpl. rewrite length_app. simpl. lia. }
  split; [done|].
  split; [rewrite Hpm; apply registered_lookup|].
  split.
  { rewrite Htr. simpl. unfold writes. rewrite filter_app. simpl.
    by rewrite app_nil_r. }
  intros body. unfold deliver. rewrite Hss. simpl. by rewrite Hs.
Qed.

(** X5: subscribing a first handler to an event name and unsubscribing
    it again gives back the dispatch table as it was; the broker has been
    sent "kernel/subscribe" and is not sent "kernel/unsubscribe". *)
Theorem subscribe_then_unsubscribe_restores_table
    fuel eventname func classcontext st s :
  debug_off E (config st) ->
  bindings st !! eventname = None ->
  secStream st = Some s ->
  exists st1 st2,
    subscribe E fuel eventname func classcontext st = Some st1
    /\ unsubscribe E fuel eventname func classcontext st1 = Some st2
    /\ bindings st2 = bindings st
    /\ requestsNamed "kernel/subscribe" (trace st2)
       = S (requestsNamed "kernel/subscribe" (trace st))
    /\ requestsNamed "kernel/unsubscribe" (trace st2)
       = requestsNamed "kernel/unsubscribe" (trace st).
Proof.
  intros Hoff Hb Hs.
  destruct (subscribe_result E fuel eventname func classcontext st Hoff)
    as (st1 & Hsub & Hb1 & _ & Htr1).
  specialize (Htr1 Hb). rewrite (send_open _ _ _ s) in Htr1 by done.
  simpl in Htr1.
  assert (Hf1 : bindings st1 !! eventname = Some [(func, classcontext)]).
  { by rewrite Hb1, lookup_insert_eq, funcs_of_None. }
  assert (Hoff1 : debug_off E (config st1)).
  { destruct (extends_exec E fuel (OSubscribe eventname func classcontext) st st1
                Hoff Hsub) as (-> & _). done. }
  pose proof (unsubscribe_result E fuel eventname func classcontext st1 _ Hoff1 Hf1)
    as Hun.
  simpl in Hun. rewrite decide_True in Hun by done. simpl in Hun.
  eexists st1, _. split; [done|]. split; [exact Hun|]. simpl.
  split.
  { rewrite Hb1. apply map_eq. intros k.
    destruct (decide (k = eventname)) as [->|Hne].
    - by rewrite lookup_delete_eq, Hb.
    - by rewrite lookup_delete_ne, !lookup_insert_ne. }
  rewrite Htr1, !requestsNamed_app, !requestsNamed_register, !requestsNamed_write.
  simpl. split; lia.
Qed.

(** X6: unsubscribing a handler that is not bound to an event name which
    has other bindings leaves the dispatch table as it is and still sends
    "kernel/unsubscribe" for that event name. *)
Theorem unsubscribe_unbound_handler_still_notifies
    fuel eventname func classcontext st d s :
  debug_off E (config st) ->
  bindings st !! eventname = Some d ->
  d <> [] ->
  (func, classcontext) ∉ d ->
  secStream st = Some s ->
  exists st',
    unsubscribe E fuel eventname func classcontext st = Some st'
    /\ bindings st' = bindings st
    /\ requestsNamed "kernel/unsubscribe" (trace st')
       = S (requestsNamed "kernel/unsubscribe" (trace st)).
Proof.
  intros Hoff Hb Hd Hnin Hs.
  rewrite (unsubscribe_result E fuel eventname func classcontext st d Hoff Hb).
  simpl. rewrite unbind_absent by done.
  destruct d as [|b d]; [done|]. simpl.
  rewrite (send_open _ _ _ s) by done.
  eexists. split; [done|]. simpl.
  split; [by apply insert_id|].
  rewrite <- app_assoc, requestsNamed_app.
  unfold requestsNamed at 2. simpl. lia.
Qed.

(** X7: the name and the configuration given to the constructor are those
    of the instance for good: after any calls and any inbound messages
    [getModuleName] returns the name the instance was constructed
    with. *)
Theorem getModuleName_is_constant fuel ops port cfg name :
  debug_off E cfg ->
  exists st,
    run E fuel ops (constructor port cfg name) = Some st
    /\ getModuleName st = name
    /\ config st = cfg.
Proof.
  intros Hoff.
  destruct (run_total E fuel ops (constructor port cfg name) Hoff) as [st Hrun].
  destruct (extends_run E fuel ops (constructor port cfg name) st Hoff Hrun)
    as (Hc & Hm & _).
  exists st. by repeat split.
Qed.

(** X8: the registry and the dispatch table are keyed by strings, so an
    inbound value whose [id] and [eventname] are not strings (a number, a
    string, a boolean, an array, an object without these properties)
    matches nothing: the listener returns and changes nothing. *)
Theorem non_string_keys_match_nothing data st :
  (forall s, JS.get "id" data <> JStr s) ->
  (forall s, JS.get "eventname" data <> JStr s) ->
  on_data (Parsed data) st = (Returned, st)
  /\ deliver E (Parsed data) st = st.
Proof.
  intros Hid Hev.
  assert (Hon : on_data (Parsed data) st = (Returned, st)).
  { assert (Hp : pending_resolver (JS.get "id" data) st = None).
    { unfold pending_resolver.
      destruct (JS.get "id" data) as [| | | |s| |]; try done. by elim (Hid s). }
    assert (Hb : bound_delegate (JS.get "eventname" data) st = None).
    { unfold bound_delegate.
      destruct (JS.get "eventname" data) as [| | | |s| |]; try done.
      by elim (Hev s). }
    unfold on_data. rewrite Hp, Hb. by destruct (negb (JS.truthy data)). }
  split; [done|].
  unfold deliver, on_data_run. rewrite Hon.
  destruct (secStream st) as [s|]; [|done].
  by destruct (dataListener s && negb (destroyed s)).
Qed.

(** What a step does to the registry: it leaves the promises as many
    as they are and adds no entry, or it stores one new promise under the
    next id. *)
Lemma exec_registry fuel op st st' :
  debug_off E (config st) ->
  exec E fuel op st = Some st' ->
  (length (promises st') = length (promises st)
   /\ forall id prm,
        pendingMessages st' !! id = Some prm -> pendingMessages st !! id = Some prm)
  \/ (pendingMessages st'
      = <[getUUID E (uuidCalls st) := length (promises st)]> (pendingMessages st)
      /\ length (promises st') = S (length (promises st))).
Proof.
  intros Hoff.
  assert (Hreq : forall path timeout payload st0 r,
             config st0 = config st -> uuidCalls st0 = uuidCalls st ->
             promises st0 = promises st -> pendingMessages st0 = pendingMessages st ->
             doRequest E fuel path timeout payload st0 = Some r ->
             pendingMessages r.2
             = <[getUUID E (uuidCalls st) := length (promises st)]> (pendingMessages st)
             /\ length (promises r.2) = S (length (promises st))).
  { intros path timeout payload st0 r Hc Hu Hp Hpm.
    destruct (request_effect fuel path timeout payload st0)
      as (st3 & -> & _ & _ & _ & _ & _ & Hpm3 & Hl3 & _); [by rewrite Hc|].
    intros [= <-]. simpl. by rewrite Hpm3, Hl3, Hu, Hp, Hpm. }
  destruct op; simpl.
  - unfold init. set (st2 := emit AOnData _).
    destruct (foldl_emit_fields AProcessOn exitEvents st)
      as (_ & Hc & _ & _ & _ & Hpm & _ & Hp & Hu & _).
    destruct (doRequest _ _ _ _ _ _) as [r|] eqn:Hr; [|done].
    intros [= <-]. right. by eapply (Hreq _ _ _ st2).
  - unfold request, requestCustomTimeout.
    destruct (doRequest _ _ _ _ _ _) as [r|] eqn:Hr; [|done].
    intros [= <-]. right. by eapply (Hreq _ _ _ st).
  - unfold requestCustomTimeout.
    destruct (doRequest _ _ _ _ _ _) as [r|] eqn:Hr; [|done].
    intros [= <-]. right. by eapply (Hreq _ _ _ st).
  - unfold subscribe. destruct (bindings st !! eventname).
    + simpl. intros [= <-]. by left.
    + unfold request, requestCustomTimeout.
      destruct (doRequest _ _ _ _ _ _) as [r|] eqn:Hr; [|done].
      simpl. intros [= <-]. right. simpl.
      by eapply (Hreq _ _ _ (upd_bindings _ st)).
  - unfold unsubscribe. destruct (bindings st !! eventname); [|intros [= <-]; by left].
    destruct (Nat.eqb _ 0); [intros [= <-]; by left|].
    unfold request, requestCustomTimeout.
    destruct (doRequest _ _ _ _ _ _) as [r|] eqn:Hr; [|done].
    simpl. intros [= <-]. right.
    by eapply (Hreq _ _ _ (upd_bindings _ st)).
  - unfold dispose. destruct (disposed st); [intros [= <-]; by left|].
    set (st1 := upd_bindings _ _).
    destruct (foldl_emit_fields AProcessOff exitEvents (set_disposed true st))
      as (_ & Hc & _ & _ & _ & Hpm & _ & Hp & Hu & _).
    unfold request, requestCustomTimeout.
    destruct (doRequest _ _ _ _ _ _) as [[prm r]|] eqn:Hr; [|done].
    simpl. intros [= <-]. right.
    destruct (dispose_await_fields prm r) as (_ & _ & Hpm' & Hp' & _).
    rewrite Hpm', Hp'.
    by apply (Hreq "kernel/dispose" (Configdata.timeout (config st1)) (JObj []) st1
                (prm, r)).
  - unfold Log, Log_with. destruct (Z.ltb _ _); [intros [= <-]; by left|].
    unfold requestInternal.
    destruct (doRequest _ _ _ _ _ _) as [r|] eqn:Hr; [|done].
    intros [= <-]. right. by eapply (Hreq _ _ _ st).
  - intros [= <-]. left.
    destruct (deliver_fields body st) as (_ & _ & Hl & _). split; [done|].
    unfold deliver. destruct (secStream st) as [s|] eqn:Hs; [|done].
    destruct (dataListener s && negb (destroyed s)); [|done].
    unfold on_data_run, on_data.
    destruct body as [|data]; [done|].
    destruct (negb (JS.truthy data)); [done|].
    destruct (pending_resolver _ st) as [[id0 prm0]|].
    + destruct (JS.spread _) as [items|]; [|done]. simpl.
      set (stA := upd_pendingMessages _ _).
      destruct (microtasks_fields stA) as (_ & Hmpm & _).
      destruct (settle_fields prm0 (Fulfilled (new_ResponseArray items)) st)
        as (Hpm & _).
      intros id prm. rewrite Hmpm. subst stA. simpl. rewrite Hpm.
      by intros [_ H]%lookup_delete_Some.
    + destruct (bound_delegate _ st) as [d|]; [|done].
      unfold on_data_resume, stream_write. by rewrite Hs.
Qed.

Lemma registryInjective_exec fuel op st st' :
  debug_off E (config st) -> registryInjective st ->
  exec E fuel op st = Some st' -> registryInjective st'.
Proof.
  intros Hoff (Hwf & Hinj) Hx.
  destruct (exec_registry fuel op st st' Hoff Hx) as [(Hl & Hsub)|(Hpm & Hl)].
  - split.
    + intros id prm H. rewrite Hl. by apply (Hwf id), Hsub.
    + intros id1 id2 prm H1 H2. apply (Hinj id1 id2 prm); by apply Hsub.
  - split.
    + intros id prm. rewrite Hpm, Hl, lookup_insert.
      case_decide; [intros [= <-]; lia|].
      intros H'. pose proof (Hwf id prm H'). lia.
    + intros id1 id2 prm. rewrite Hpm, !lookup_insert.
      repeat case_decide; try congruence.
      * intros [= <-] H2. pose proof (Hwf id2 _ H2). lia.
      * intros H1 [= <-]. pose proof (Hwf id1 _ H1). lia.
      * apply Hinj.
Qed.

Lemma registryInjective_reachable fuel ops port cfg name st :
  debug_off E cfg ->
  run E fuel ops (constructor port cfg name) = Some st ->
  registryInjective st.
Proof.
  intros Hoff.
  assert (Hgen : forall ops st0 st1,
             debug_off E (config st0) -> registryInjective st0 ->
             run E fuel ops st0 = Some st1 -> registryInjective st1).
  { clear ops st. induction ops as [|op ops IH]; intros st0 st1 Hoff' Hinv; simpl.
    - by intros [= <-].
    - destruct (exec E fuel op st0) as [st2|] eqn:Hx; [|done]. simpl.
      apply IH.
      + apply extends_exec in Hx; [|done]. by destruct Hx as (-> & _).
      + by eapply registryInjective_exec. }
  apply Hgen; [done|].
  split; intros ?; intros; simpl in *; by rewrite lookup_empty in *.
Qed.

(** X9: responses do not cross.  In any state the instance can reach, an
    inbound envelope that matches the pending id [id] leaves every other
    pending request as it is: its entry stays in the registry and its
    promise keeps its state. *)
Theorem response_leaves_other_requests fuel ops port cfg name st
    data id prm id' prm' :
  debug_off E cfg ->
  run E fuel ops (constructor port cfg name) = Some st ->
  pending_resolver (JS.get "id" data) st = Some (id, prm) ->
  id' <> id ->
  pendingMessages st !! id' = Some prm' ->
  pendingMessages (on_data (Parsed data) st).2 !! id' = Some prm'
  /\ promiseState prm' (on_data (Parsed data) st).2 = promiseState prm' st
  /\ promiseState prm' (deliver E (Parsed data) st) = promiseState prm' st.
Proof.
  intros Hoff Hrun Hres Hne Hl'.
  destruct (registryInjective_reachable fuel ops port cfg name st Hoff Hrun)
    as (Hwf & Hinj).
  destruct (pending_resolver_Some _ _ _ _ Hres) as (Hid & Hl).
  assert (Hprm : prm' <> prm).
  { intros ->. apply Hne. by apply (Hinj id' id prm). }
  assert (Hon : pendingMessages (on_data (Parsed data) st).2 !! id' = Some prm'
                /\ promiseState prm' (on_data (Parsed data) st).2
                   = promiseState prm' st).
  { unfold on_data. rewrite (get_Some_truthy _ _ _ Hid), Hres. simpl.
    destruct (JS.spread _) as [items|]; [|done]. simpl.
    set (stA := upd_pendingMessages _ _).
    destruct (microtasks_fields stA) as (_ & Hmpm & _).
    destruct (settle_fields prm (Fulfilled (new_ResponseArray items)) st)
      as (Hpm & _).
    rewrite Hmpm, promiseState_microtasks. subst stA. simpl. rewrite Hpm.
    split; [by rewrite lookup_delete_ne|].
    unfold settle. destruct (promiseState prm st); try done.
    unfold promiseState. simpl. by rewrite list_lookup_insert_ne. }
  split; [apply Hon|]. split; [apply Hon|].
  unfold deliver. destruct (secStream st) as [s|]; [|done].
  destruct (dataListener s && negb (destroyed s)); [|done].
  unfold on_data_run.
  destruct (on_data (Parsed data) st) as [[| |d data'] st'] eqn:Hod;
    simpl in *; try apply Hon.
  revert Hod. unfold on_data.
  rewrite (get_Some_truthy _ _ _ Hid), Hres. simpl.
  by destruct (JS.spread _).
Qed.

Lemma sealed_exec fuel op st st' :
  debug_off E (config st) -> sealed st ->
  exec E fuel op st = Some st' ->
  sealed st' /\ destroys (trace st') = destroys (trace st).
Proof.
  intros Hoff (Hd & Ha).
  assert (Hcalm : forall st2, calm st st2 ->
            sealed st2 /\ destroys (trace st2) = destroys (trace st)).
  { intros st2 (Hd2 & Ha2 & Hx2 & _). unfold sealed. by rewrite Hd2, Ha2. }
  assert (Hreq : forall path timeout payload st0 r,
             calm st st0 -> config st0 = config st ->
             doRequest E fuel path timeout payload st0 = Some r -> calm st r.2).
  { intros path timeout payload st0 r H0 Hc Hr.
    eapply calm_trans; [exact H0|].
    eapply calm_doRequest; [|exact Hr]. by rewrite Hc. }
  destruct op; simpl.
  - unfold init. set (st2 := emit AOnData _).
    assert (H02 : calm st st2).
    { eapply calm_trans; [apply (calm_foldl_emit AProcessOn); done|].
      eapply calm_trans; [|by apply calm_emit].
      eapply calm_trans; [|by apply calm_emit].
      by apply calm_frame. }
    assert (Hc : config st2 = config st).
    { destruct (foldl_emit_fields AProcessOn exitEvents st) as (_ & Hc & _).
      exact Hc. }
    destruct (doRequest _ _ _ _ _ _) as [r|] eqn:Hr; [|done].
    intros [= <-]. apply Hcalm. by eapply (Hreq _ _ _ st2).
  - unfold request, requestCustomTimeout.
    destruct (doRequest _ _ _ _ _ _) as [r|] eqn:Hr; [|done].
    intros [= <-]. apply Hcalm. eapply (Hreq _ _ _ st); [apply calm_refl|done|done].
  - unfold requestCustomTimeout.
    destruct (doRequest _ _ _ _ _ _) as [r|] eqn:Hr; [|done].
    intros [= <-]. apply Hcalm. eapply (Hreq _ _ _ st); [apply calm_refl|done|done].
  - unfold subscribe. destruct (bindings st !! eventname).
    + simpl. intros [= <-]. apply Hcalm. by apply calm_frame.
    + unfold request, requestCustomTimeout.
      destruct (doRequest _ _ _ _ _ _) as [r|] eqn:Hr; [|done].
      simpl. intros [= <-]. apply Hcalm.
      eapply calm_trans; [|by apply calm_frame].
      eapply (Hreq _ _ _ (upd_bindings _ st)); [by apply calm_frame|done|done].
  - unfold unsubscribe.
    destruct (bindings st !! eventname);
      [|intros [= <-]; apply Hcalm, calm_refl].
    destruct (Nat.eqb _ 0); [intros [= <-]; apply Hcalm; by apply calm_frame|].
    unfold request, requestCustomTimeout.
    destruct (doRequest _ _ _ _ _ _) as [r|] eqn:Hr; [|done].
    simpl. intros [= <-]. apply Hcalm.
    eapply (Hreq _ _ _ (upd_bindings _ st)); [by apply calm_frame|done|done].
  - rewrite dispose_disposed by done. intros [= <-]. apply Hcalm, calm_refl.
  - unfold Log, Log_with.
    destruct (Z.ltb _ _); [intros [= <-]; apply Hcalm, calm_refl|].
    unfold requestInternal.
    destruct (doRequest _ _ _ _ _ _) as [r|] eqn:Hr; [|done].
    intros [= <-]. apply Hcalm. eapply (Hreq _ _ _ st); [apply calm_refl|done|done].
  - intros [= <-].
    destruct (deliver_keeps E "" body st) as (Hdd & _ & _ & Hle).
    destruct (deliver_fields body st) as (_ & _ & _ & extra & Htr).
    rewrite Ha in Hle. simpl in Hle.
    rewrite Htr, destroys_app in *.
    unfold sealed. rewrite Hdd.
    split; [|lia]. split; [done|].
    destruct (awaitingDispose (deliver E body st)); [done|simpl in Hle; lia].
Qed.

(** X10: a [dispose] that runs before [init] has opened a stream uses up
    the guard: its request is rejected and it ends without anything to
    close.  Afterwards, whatever is called and whatever arrives, a later
    [init] included, the class never closes a stream. *)
Theorem dispose_before_init_never_closes fuel st :
  debug_off E (config st) ->
  disposed st = false ->
  awaitingDispose st = [] ->
  secStream st = None ->
  exists st1,
    dispose E fuel st = Some st1
    /\ forall ops, exists st2,
         run E fuel ops st1 = Some st2
         /\ disposed st2 = true
         /\ destroys (trace st2) = destroys (trace st).
Proof.
  intros Hoff Hd Ha Hs.
  destruct (dispose_undefined E fuel st Hoff Hd Hs)
    as (st1 & Hdisp & Hd1 & Ha1 & _ & _ & Ht1).
  exists st1. split; [done|].
  assert (Hoff1 : debug_off E (config st1)).
  { destruct (extends_exec E fuel ODispose st st1 Hoff Hdisp) as (-> & _). done. }
  assert (Hx1 : destroys (trace st1) = destroys (trace st)).
  { rewrite Ht1, !destroys_app, destroys_map_off. unfold destroys at 2. simpl. lia. }
  assert (Hseal : sealed st1) by (split; congruence).
  rewrite <- Hx1. clear Hdisp Hd1 Ha1 Ht1 Hx1.
  intros ops. revert st1 Hoff1 Hseal.
  induction ops as [|op ops IH]; intros st1 Hoff1 Hseal; simpl.
  - exists st1. split; [done|]. split; [apply Hseal|done].
  - destruct (exec_total E fuel op st1 Hoff1) as [st2 Hx]. rewrite Hx. simpl.
    destruct (sealed_exec fuel op st1 st2 Hoff1 Hseal Hx) as (Hseal2 & <-).
    apply IH; [|done].
    apply extends_exec in Hx; [|done]. by destruct Hx as (-> & _).
Qed.

(** X11: [doRequest] does not look whether the id it has drawn is
    already pending.  When it is, the stored resolver is replaced: the
    earlier promise stays pending, a response with that id fulfils the
    later promise only, and the id is then gone from the registry. *)
Theorem duplicate_id_orphans_earlier_request fuel eventname payload st s old items :
  debug_off E (config st) ->
  secStream st = Some s -> dataListener s = true -> destroyed s = false ->
  pendingMessages st !! getUUID E (uuidCalls st) = Some old ->
  promiseState old st = Pending ->
  (old < length (promises st))%nat ->
  let uuid := getUUID E (uuidCalls st) in
  exists prm st1,
    request E fuel eventname payload st = Some (prm, st1)
    /\ prm <> old
    /\ pendingMessages st1 !! uuid = Some prm
    /\ promiseState old st1 = Pending
    /\ let st2 := deliver E (Parsed (JObj [("id", JStr uuid);
                                           ("payload", JArr items)])) st1 in
       promiseState prm st2 = Fulfilled (new_ResponseArray items)
       /\ promiseState old st2 = Pending
       /\ pendingMessages st2 !! uuid = None.
Proof.
  intros Hoff Hs Hl Hdes Hold Hpend Hlt uuid.
  rewrite request_quiet by done.
  rewrite (send_open _ _ _ s) by done.
  set (data := request_data _ _ _ _ _).
  set (st1 := emit (AWrite (MRequest data)) (registered E st)).
  exists (length (promises st)), st1.
  split; [done|]. split; [lia|].
  assert (Hreg : pendingMessages st1 !! uuid = Some (length (promises st)))
    by apply registered_lookup.
  assert (Hold1 : promiseState old st1 = Pending).
  { unfold promiseState in *. subst st1. simpl. by rewrite lookup_app_l. }
  split; [done|]. split; [done|].
  set (reply := JObj [("id", JStr uuid); ("payload", JArr items)]).
  assert (Hres : pending_resolver (JS.get "id" reply) st1
                 = Some (uuid, length (promises st))).
  { change (JS.get "id" reply) with (JStr uuid).
    unfold pending_resolver. by rewrite Hreg. }
  pose proof (on_data_correlated reply st1 uuid _ items eq_refl Hres eq_refl) as Hon.
  apply (on_data_run_returned E) in Hon.
  simpl. rewrite (deliver_open E _ st1 s) by done.
  rewrite Hon. simpl.
  set (stA := upd_pendingMessages _ _).
  destruct (microtasks_fields stA) as (_ & Hmpm & _).
  rewrite !promiseState_microtasks, Hmpm.
  assert (Hfresh : promiseState (length (promises st)) st1 = Pending)
    by apply registered_fresh_pending.
  split.
  { change (promiseState (length (promises st))
              (settle (length (promises st)) (Fulfilled (new_ResponseArray items)) st1)
            = Fulfilled (new_ResponseArray items)).
    apply promiseState_settle; [done|].
    subst st1. simpl. rewrite length_app. simpl. lia. }
  split.
  { change (promiseState old
              (settle (length (promises st)) (Fulfilled (new_ResponseArray items)) st1)
            = Pending).
    unfold settle. rewrite Hfresh. unfold promiseState in *. simpl.
    rewrite list_lookup_insert_ne by lia. by rewrite lookup_app_l. }
  subst stA. simpl. by rewrite lookup_delete_eq.
Qed.

End ClassFacts.
